(** * adyen-web: setup of the secured fields, checkout session, core registry

    A shallow embedding of three pieces of the SDK:
    - [initCSF], the setup of the secured fields of a card
    - [Session] (core/CheckoutSession/CheckoutSession.ts)
    - [Core.remove], of the class that creates and keeps the components

    JavaScript objects live in a heap of property maps, so that copies
    ([{ ...o }]) and in-place writes ([o.k = v]) are told apart.  Calls into
    modules whose effect is outside these files (the logger, the console, the
    session storage, [unmount]) are recorded in a trace. *)

From stdpp Require Import base option strings gmap list.

Open Scope string_scope.
Open Scope list_scope.

(** ** JavaScript values *)

Abbreviation loc := positive (only parsing).

(** Numbers are restricted to integers: none of the modelled code computes
    with them, they only occur as possibly falsy property values. *)
Inductive jsval :=
| VUndefined
| VNull
| VBool (b : bool)
| VNum (z : Z)
| VStr (s : string)
| VElem (node : nat)      (* a DOM element, by identity *)
| VRef (l : loc).         (* any other object, by reference *)

Global Instance jsval_eq_dec : EqDecision jsval.
Proof. solve_decision. Defined.

Global Instance jsval_inhabited : Inhabited jsval := populate VUndefined.

(** ToBoolean: what [if (x)] and [!x] test. *)
Definition toBoolean (v : jsval) : bool :=
  match v with
  | VUndefined | VNull => false
  | VBool b => b
  | VNum z => negb (Z.eqb z 0)
  | VStr s => negb (String.eqb s "")
  | VElem _ | VRef _ => true
  end.

(** [a === b] on the values above (no NaN among them). *)
Definition strict_eq (a b : jsval) : bool := bool_decide (a = b).

(** ** Objects, heap, trace *)

Abbreviation obj := (gmap string jsval) (only parsing).

(** [o.k]: a property that is not there reads as [undefined]. *)
Definition prop (o : obj) (k : string) : jsval := default VUndefined (o !! k).

Inductive event :=
| logger_error (msg : string)
| logger_warn (msg : string)
| console_error (msg : string) (arg : jsval)
| new_CSF (setupObj : loc)
| storeSession_call (session : obj)
| unmount_call (component : loc).

Global Instance event_eq_dec : EqDecision event.
Proof. solve_decision. Defined.

Record state := State { heap : gmap loc obj; trace : list event }.

(** ** Computations: state and exceptions *)

Inductive result (A : Type) :=
| Returned (a : A)
| Thrown (err : string).
Arguments Returned {A} a.
Arguments Thrown {A} err.

Definition M (A : Type) : Type := state → result A * state.

Global Instance M_ret : MRet M := λ A a σ, (Returned a, σ).

Global Instance M_bind : MBind M := λ A B f m σ,
  match m σ with
  | (Returned a, σ') => f a σ'
  | (Thrown e, σ') => (Thrown e, σ')
  end.

Definition throw {A} (err : string) : M A := λ σ, (Thrown err, σ).

(** The computation returns, with a value and a state that satisfy [Q]. *)
Definition returns {A} (m : M A) (σ : state) (Q : A → state → Prop) : Prop :=
  ∃ a σ', m σ = (Returned a, σ') ∧ Q a σ'.

Definition emit (e : event) : M unit :=
  λ σ, (Returned (), State (heap σ) (trace σ ++ [e])).

(** [{ ...p }]: a new object holding the own properties of [p]; spreading
    [null] or [undefined] gives the empty object. *)
Definition spread (p : option loc) : M loc := λ σ,
  let l := fresh (dom (heap σ)) in
  let o : obj := default ∅ (p ≫= λ q, heap σ !! q) in
  (Returned l, State (<[l := o]> (heap σ)) (trace σ)).

(** [l.k] *)
Definition get (l : loc) (k : string) : M jsval := λ σ,
  (Returned (prop (default ∅ (heap σ !! l)) k), σ).

(** [l.k = v] *)
Definition set (l : loc) (k : string) (v : jsval) : M unit := λ σ,
  (Returned (), State (alter (<[k := v]>) l (heap σ)) (trace σ)).

(** Modelled from the spec: utils/hasOwnProperty is not among the sources;
    "setupConfig must name a root container" (4.2) is read as: the object has
    a property of that name, whatever its value ([undefined] included). *)
Definition hasOwnProperty (l : loc) (k : string) : M bool := λ σ,
  (Returned (bool_decide (is_Some (default ∅ (heap σ !! l) !! k))), σ).

(** ** What initCSF imports

    [cardType], [commonUtils.falsy], [domUtils.findRootNode] and the [CSF]
    class are outside the sources at hand: they are taken as they are used.
    [findRootNode] reads the document, which is fixed during a call. *)
Class Imports := {
  cardType_isGenericCardType : jsval → bool;
  falsy : jsval → bool;
  findRootNode : jsval → jsval;
  window_console_error : bool;
  CSF : Type;
  CSFReturnObject : Type;
  CSF_constructor : obj → CSF;
  createReturnObject : CSF → CSFReturnObject
}.

(** The messages of initCSF; [dq] is the double quote character. *)
Definition dq : string := String (Ascii.ascii_of_nat 34) EmptyString.
Definition msg_no_config := "No securedFields configuration object defined".
Definition msg_no_rootNode :=
  "ERROR: SecuredFields configuration object is missing a " +:+ dq +:+ "rootNode"
  +:+ dq +:+ " property".
Definition msg_no_clientKey :=
  "WARNING: AdyenCheckout configuration object is missing a " +:+ dq +:+ "clientKey"
  +:+ dq +:+ " property.".
Definition msg_rootNode_not_found :=
  "ERROR: SecuredFields cannot find a valid rootNode element for".

Section InitCSF.
Context `{Imports}.

(** [new CSF(setupObj)]: the instance is built from the object it is handed;
    the call is recorded with the reference it received. *)
Definition new_CSF_from (setupObj : loc) : M CSF := λ σ,
  (Returned (CSF_constructor (default ∅ (heap σ !! setupObj))),
   State (heap σ) (trace σ ++ [new_CSF setupObj])).

Definition initCSF (pSetupObj : option loc) : M (option CSFReturnObject) :=
  if negb (bool_decide (is_Some pSetupObj)) then throw msg_no_config else
  setupObj ← spread pSetupObj;
  type ← get setupObj "type";
  let isGenericCardType := cardType_isGenericCardType type in
  set setupObj "type" (if isGenericCardType then VStr "card" else type);;
  has ← hasOwnProperty setupObj "rootNode";
  if negb has then
    emit (logger_error msg_no_rootNode);; mret None
  else
  clientKey ← get setupObj "clientKey";
  if falsy clientKey then
    emit (logger_warn msg_no_clientKey);; mret None
  else
  rn ← get setupObj "rootNode";
  let rootNode := findRootNode rn in
  if negb (toBoolean rootNode) then
    (if window_console_error
     then type' ← get setupObj "type";
          emit (console_error msg_rootNode_not_found type')
     else mret ());;
    mret None
  else
  set setupObj "rootNode" rootNode;;
  myCSF ← new_CSF_from setupObj;
  mret (Some (createReturnObject myCSF)).

(** The value line 18 assigns to [setupObj.type], for a setup object with
    the properties [o]. *)
Definition normalizedType (o : obj) : jsval :=
  if cardType_isGenericCardType (prop o "type") then VStr "card" else prop o "type".

End InitCSF.

(** Reading a trace: the two errors about the root node (the property is
    not there, the element is not found), the warning about the client key,
    any warning, the construction of a CSF. *)
Definition RootNodeNotFound (e : event) : bool :=
  match e with
  | logger_error m => bool_decide (m = msg_no_rootNode)
  | console_error m _ => bool_decide (m = msg_rootNode_not_found)
  | _ => false
  end.

Definition MissingCredential (e : event) : bool :=
  bool_decide (e = logger_warn msg_no_clientKey).

Definition constructsCSF (e : event) : bool :=
  match e with new_CSF _ => true | _ => false end.

Definition warning (e : event) : bool :=
  match e with logger_warn _ => true | _ => false end.

(** The events a computation added to the trace of [σ], given its final
    state. *)
Definition emitted (σ σ' : state) : list event := drop (length (trace σ)) (trace σ').

(** [l.k] in the state [σ], as a value. *)
Definition given (σ : state) (l : loc) (k : string) : jsval :=
  prop (default ∅ (heap σ !! l)) k.

(** ** CheckoutSession.ts: class Session

    [this.session] is a reference to the session object ({id, data}); the
    constructor, which consults the session storage, is not needed below.
    [storeSession] (./storage) is outside the sources: the call is recorded
    with the contents it was handed.  The two services return a promise,
    whose settlement is taken from [SessionServices]; a rejection surfaces as
    [Thrown]. *)

Module Session.

Record t := Make { session : loc; clientKey : jsval; loadingContext : jsval }.

Inductive promise (A : Type) :=
| Resolved (a : A)
| Rejected (reason : string).
Arguments Resolved {A} a.
Arguments Rejected {A} reason.

Class SessionServices := {
  Services_makePayment : jsval → t → state → promise obj;
  Services_submitDetails : jsval → t → state → promise obj
}.

(** [get id()] *)
Definition id (this : t) : M jsval := get (session this) "id".

(** [get data()] *)
Definition data (this : t) : M jsval := get (session this) "data".

Definition storeSession (this : t) : M unit := λ σ,
  emit (storeSession_call (default ∅ (heap σ !! session this))) σ.

Definition updateSessionData (this : t) (latestData : jsval) : M unit :=
  set (session this) "data" latestData;;
  storeSession this.

Definition await {A} (settle : state → promise A) : M A := λ σ,
  match settle σ with
  | Resolved a => (Returned a, σ)
  | Rejected e => (Thrown e, σ)
  end.

Section Methods.
Context `{SessionServices}.

Definition makePayment (this : t) (data : jsval) : M obj :=
  response ← await (Services_makePayment data this);
  (if toBoolean (prop response "sessionData")
   then updateSessionData this (prop response "sessionData")
   else mret ());;
  mret response.

Definition submitDetails (this : t) (data : jsval) : M obj :=
  response ← await (Services_submitDetails data this);
  (if toBoolean (prop response "sessionData")
   then updateSessionData this (prop response "sessionData")
   else mret ());;
  mret response.
End Methods.

(** *** Construction

    [getStoredSession] of ./storage is outside the sources; it is taken as
    what it hands back: a reference to the stored session object, or nothing
    (null or undefined). *)
Class SessionStorage := {
  Storage_getStoredSession : state → option loc
}.

Definition msg_no_session_id := "No Session ID".
Definition msg_no_session_clientKey := "No clientKey available".

(** Reading something off the state. *)
Definition ask {A} (f : state → A) : M A := λ σ, (Returned (f σ), σ).

Section Construction.
Context `{SessionStorage}.

(** The method [getStoredSession()], lines 74-77.  [storedSession?.id] is
    undefined when nothing is stored; the result [None] stands for that null or
    undefined stored session being handed back. *)
Definition getStoredSession (this : t) : M (option loc) :=
  storedSession ← ask Storage_getStoredSession;
  thisId ← id this;
  storedId ← match storedSession with
             | Some l => get l "id"
             | None => mret VUndefined
             end;
  mret (if strict_eq thisId storedId then storedSession else Some (session this)).

(** [new Session(session, clientKey, loadingContext)], lines 12-26.  While the
    body runs [this.clientKey] and [this.loadingContext] are not yet assigned.
    [getStoredSession] is called with an id that is truthy, in which case it
    hands back a session (see [getStoredSession_is_Some]); the [default] is
    there for the type only. *)
Definition constructor (session : loc) (clientKey loadingContext : jsval) : M t :=
  sessionId ← get session "id";
  if negb (toBoolean sessionId) then throw msg_no_session_id else
  if negb (toBoolean clientKey) then throw msg_no_session_clientKey else
  let this := Make session VUndefined VUndefined in
  sessionData ← data this;
  session' ← (if negb (toBoolean sessionData)
              then stored ← getStoredSession this; mret (default session stored)
              else storeSession this;; mret session);
  mret (Make session' clientKey loadingContext).

End Construction.

(** [setupSession()], lines 44-46: the service is outside the sources, its
    promise is taken as it settles. *)
Class SetupService := {
  Services_setupSession : t → state → promise obj
}.

Definition setupSession `{SetupService} (this : t) : M obj :=
  await (Services_setupSession this).

(** *** Sequences of calls

    What a page does with a session over time: any of the three methods that
    write, in any order; a rejected service ends that call, not the page. *)
Inductive call :=
| UpdateSessionData (latestData : jsval)
| MakePayment (data : jsval)
| SubmitDetails (data : jsval).

Section Calls.
Context `{SessionServices}.

Definition perform (this : t) (c : call) (σ : state) : state :=
  match c with
  | UpdateSessionData v => (updateSessionData this v σ).2
  | MakePayment d => (makePayment this d σ).2
  | SubmitDetails d => (submitDetails this d σ).2
  end.

Definition performAll (this : t) (cs : list call) (σ : state) : state :=
  foldl (λ σ c, perform this c σ) σ cs.

End Calls.

(** The state [σ'] comes from [σ] by calls on [this]: the trace grew by
    storeSession calls, only "data" of the session object may differ, and if
    anything was stored, the last thing stored is the session as it is. *)
Definition evolved (this : t) (σ σ' : state) : Prop :=
  ∃ evs,
    trace σ' = trace σ ++ evs ∧
    Forall (λ e, ∃ o, e = storeSession_call o) evs ∧
    (∀ l, l ≠ session this → heap σ' !! l = heap σ !! l) ∧
    (∀ k, k ≠ "data" → given σ' (session this) k = given σ (session this) k) ∧
    (evs = [] ∧ heap σ' = heap σ ∨
     last evs = Some (storeSession_call (default ∅ (heap σ' !! session this)))).

End Session.

(** ** Core.remove

    Of a Core instance only [components] matters to [remove]; the components
    are objects in the heap, [unmount] is a method of the (absent) UIElement
    and is recorded as a call. *)

Module Core.

Record t := Make { components : list loc }.

(** [c._id] as the heap has it *)
Definition _id (h : gmap loc obj) (c : loc) : jsval :=
  prop (default ∅ (h !! c)) "_id".

Definition remove (this : t) (component : loc) : M t := λ σ,
  let components' :=
    filter (λ c, strict_eq (_id (heap σ) c) (_id (heap σ) component) = false)
           (components this) in
  (emit (unmount_call component);;
   mret (Make components')) σ.

End Core.

(** ** The Core instance as a whole

    The fields of a constructed Core: its options object, the modules and the
    PaymentMethodsResponse built from them, the Session once there is one
    (the instance and its fields), the registered components.  [self] is the
    instance itself and [createFromAction] its bound method, as the props of
    a component refer to them.

    RiskModule, Analytics, Language, PaymentMethodsResponse and
    resolveEnvironment are outside the sources: a constructor is taken as
    the properties of the instance it makes, given its arguments.  The
    callbacks of the page and [update] of a component are calls that are
    recorded, with their arguments (the Core instance apart), in the order in
    which they are made; they are taken not to throw. *)

Module Checkout.

Inductive callback :=
| onAdditionalDetails_call (details : jsval)
| onPaymentCompleted_call (response : obj)
| onError_call (error : string)
| component_update_call (component : loc) (props : loc).

Record t := Make {
  self : loc;
  createFromAction : loc;
  session : option (loc * Session.t);
  paymentMethodsResponse : loc;
  modules : loc;
  options : loc;
  components : list loc
}.

Class CoreImports := {
  resolveEnvironment : jsval → jsval;
  RiskModule : loc → state → obj;
  Analytics : loc → state → obj;
  Language : jsval → jsval → state → obj;
  PaymentMethodsResponse : jsval → loc → state → obj
}.

(** An object literal, or [new C(...)] for a class whose instances have the
    properties [o]: a new object. *)
Definition alloc (o : obj) : M loc := λ σ,
  let l := fresh (dom (heap σ)) in
  (Returned l, State (<[l := o]> (heap σ)) (trace σ)).

(** The own properties of [l], for a spread. *)
Definition contents (l : loc) : M obj := λ σ, (Returned (default ∅ (heap σ !! l)), σ).

(** [delete l.k] *)
Definition delete_prop (l : loc) (k : string) : M unit := λ σ,
  (Returned (), State (alter (delete k) l (heap σ)) (trace σ)).

(** [v.k] for a value: a TypeError on null and undefined, the property of an
    object, undefined on the other values (none of the properties read that
    way below is one of a primitive). *)
Definition getv (v : jsval) (k : string) : M jsval :=
  match v with
  | VRef l => get l k
  | VUndefined | VNull => throw "TypeError"
  | _ => mret VUndefined
  end.

(** [a ?? b] *)
Definition coalesce (a b : jsval) : jsval :=
  match a with
  | VUndefined | VNull => b
  | _ => a
  end.

(** How a promise settled, for [.then(...).catch(...)]. *)
Definition settled {A} (m : M A) : M (result A) := λ σ,
  let '(r, σ') := m σ in (Returned r, σ').

Fixpoint forEach {A B} (f : A → M B) (l : list A) : M (list B) :=
  match l with
  | [] => mret []
  | x :: l => y ← f x; ys ← forEach f l; mret (y :: ys)
  end.

(** [this.session] as a value *)
Definition sessionValue (this : t) : jsval :=
  match session this with
  | Some (instance, _) => VRef instance
  | None => VUndefined
  end.

(** [getPropsForComponent(options)], lines 182-193 *)
Definition getPropsForComponent (this : t) (options : option loc) : M loc :=
  paymentMethods ← get (paymentMethodsResponse this) "paymentMethods";
  storedPaymentMethods ← get (paymentMethodsResponse this) "storedPaymentMethods";
  passed ← match options with Some l => contents l | None => mret ∅ end;
  i18n ← get (modules this) "i18n";
  alloc (<["_parentInstance" := VRef (self this)]>
        (<["createFromAction" := VRef (createFromAction this)]>
        (<["session" := sessionValue this]>
        (<["modules" := VRef (modules this)]>
        (<["i18n" := i18n]>
        (passed ∪ <["storedPaymentMethods" := storedPaymentMethods]>
                  {[ "paymentMethods" := paymentMethods ]})))))).

(** [remove], on the instance as a whole *)
Definition remove (this : t) (component : loc) : M t :=
  core ← Core.remove (Core.Make (components this)) component;
  mret (Make (self this) (createFromAction this) (session this)
             (paymentMethodsResponse this) (modules this) (options this)
             (Core.components core)).

(** The components a list of calls updates, and the props they were given. *)
Definition updated (calls : list callback) : list loc :=
  omap (λ c, match c with component_update_call c _ => Some c | _ => None end) calls.

Definition propsOf (calls : list callback) : list loc :=
  omap (λ c, match c with component_update_call _ p => Some p | _ => None end) calls.

Section Methods.
Context `{CoreImports} `{Session.SessionServices} `{Session.SessionStorage}
        `{Session.SetupService}.

(** [setOptions(options)], lines 160-175 *)
Definition setOptions (this : t) (options : option loc) : M t :=
  previous ← contents (Checkout.options this);
  passed ← match options with Some l => contents l | None => mret ∅ end;
  opts ← alloc (passed ∪ previous);
  environment ← get opts "environment";
  set opts "loadingContext" (resolveEnvironment environment);;
  locale ← get opts "locale";
  shopperLocale ← get opts "shopperLocale";
  set opts "locale" (if toBoolean locale then locale else shopperLocale);;
  risk ← (λ σ, alloc (RiskModule opts σ) σ);
  analytics ← (λ σ, alloc (Analytics opts σ) σ);
  locale' ← get opts "locale";
  translations ← get opts "translations";
  i18n ← (λ σ, alloc (Language locale' translations σ) σ);
  modules' ← alloc {[ "risk" := VRef risk; "analytics" := VRef analytics;
                      "i18n" := VRef i18n ]};
  response ← get opts "paymentMethodsResponse";
  paymentMethods ← get opts "paymentMethods";
  paymentMethodsResponse' ←
    (λ σ, alloc (PaymentMethodsResponse (coalesce response paymentMethods) opts σ) σ);
  delete_prop opts "paymentMethods";;
  mret (Make (self this) (createFromAction this) (session this)
             paymentMethodsResponse' modules' opts (components this)).

(** [new Session(...)] as initialize calls it, on the value of
    [options.session]: of a primitive, [session.id] is undefined.  The new
    instance is an object holding its three fields. *)
Definition newSession (session clientKey loadingContext : jsval) : M (loc * Session.t) :=
  match session with
  | VRef l =>
      s ← Session.constructor l clientKey loadingContext;
      instance ← alloc {[ "session" := VRef (Session.session s);
                          "clientKey" := Session.clientKey s;
                          "loadingContext" := Session.loadingContext s ]};
      mret (instance, s)
  | VUndefined | VNull => throw "TypeError"
  | _ => throw Session.msg_no_session_id
  end.

(** [initialize()], lines 36-54.  A throw of [new Session] is a throw of
    initialize; a rejected setup goes to the catch. *)
Definition initialize (this : t) : M (t * list callback) :=
  sessionOption ← get (options this) "session";
  if toBoolean sessionOption then
    clientKey ← get (options this) "clientKey";
    loadingContext ← get (options this) "loadingContext";
    session' ← newSession sessionOption clientKey loadingContext;
    let this := Make (self this) (createFromAction this) (Some session')
                     (paymentMethodsResponse this) (modules this) (options this)
                     (components this) in
    outcome ← settled (
      sessionResponse ← Session.setupSession session'.2;
      order ← get (options this) "order";
      amount ← (if toBoolean order then getv order "remainingAmount"
                else mret (prop sessionResponse "amount"));
      update ← alloc (<["amount" := amount]> sessionResponse);
      setOptions this (Some update));
    match outcome with
    | Returned this' => mret (this', [])
    | Thrown error =>
        onError ← get (options this) "onError";
        mret (this, if toBoolean onError then [onError_call error] else [])
    end
  else mret (this, []).

(** [update(options = {})], lines 131-140 *)
Definition update (this : t) (options : option loc) : M (t * list callback) :=
  options ← match options with Some l => mret l | None => alloc ∅ end;
  this ← setOptions this (Some options);
  '(this, calls) ← initialize this;
  updates ← forEach (λ c, props ← getPropsForComponent this (Some (Checkout.options this));
                          mret (component_update_call c props))
                    (components this);
  mret (this, calls ++ updates).

(** [submitDetails(details)], lines 83-96 *)
Definition submitDetails (this : t) (details : jsval) : M (list callback) :=
  onAdditionalDetails ← get (options this) "onAdditionalDetails";
  if toBoolean onAdditionalDetails then mret [onAdditionalDetails_call details] else
  match session this with
  | Some (_, s) =>
      outcome ← settled (Session.submitDetails s details);
      match outcome with
      | Returned response =>
          onPaymentCompleted ← get (options this) "onPaymentCompleted";
          mret (if toBoolean onPaymentCompleted
                then [onPaymentCompleted_call response] else [])
      | Thrown error =>
          onError ← get (options this) "onError";
          mret (if toBoolean onError then [onError_call error] else [])
      end
  | None => mret []
  end.

End Methods.

End Checkout.

(** ** Aggregator *)

Module Aggregator.

Inductive fieldName :=
| encryptedCardNumber
| encryptedExpiryDate
| encryptedSecurityCode
| genericField.

Global Instance fieldName_eq_dec : EqDecision fieldName.
Proof. solve_decision. Defined.

(** Modelled from the spec: FieldState of section 3; the CSF class that
    holds it is not among the sources. *)
Record FieldState := {
  isValid : bool;
  isEmpty : bool;
  hasFocus : bool;
  errorCode : option string;
  brandHint : option string
}.

(** Modelled from the spec: FieldDescriptor of section 3, its validation
    policy reduced to what section 4.5 uses of it: the brands for which the
    field is optional. *)
Record FieldDescriptor := {
  name : fieldName;
  optionalFor : string → bool
}.

Record Field := { descriptor : FieldDescriptor; fstate : FieldState }.

(** Modelled from the spec: "a brand hint from the PAN field wins; if no PAN
    field exists brand is always null" (4.5). *)
Definition detectedBrand (fs : list Field) : option string :=
  match List.find (λ f, bool_decide (name (descriptor f) = encryptedCardNumber)) fs with
  | Some pan => brandHint (fstate pan)
  | None => None
  end.

(** Modelled from the spec: "fields that are optional are excluded from the
    computation once the brand is known" (4.5). *)
Definition required (brand : option string) (d : FieldDescriptor) : bool :=
  match brand with
  | Some b => negb (optionalFor d b)
  | None => true
  end.

(** Modelled from the spec: "allValid is true iff every required
    FieldDescriptor's FieldState.isValid is true" (4.5). *)
Definition allValid (fs : list Field) : bool :=
  forallb (λ f, implb (required (detectedBrand fs) (descriptor f)) (isValid (fstate f))) fs.

(** Modelled from the spec: CompositeState of section 3 (lastErrorField,
    which the spec names without saying how it is chosen, is left out). *)
Record CompositeState := {
  cs_allValid : bool;
  cs_detectedBrand : option string;
  cs_numberOfValidFields : nat
}.

(** Modelled from the spec: the aggregate as "a pure function of the current
    set of FieldStates" (4.5). *)
Definition compute (fs : list Field) : CompositeState := {|
  cs_allValid := allValid fs;
  cs_detectedBrand := detectedBrand fs;
  cs_numberOfValidFields := length (List.filter (λ f, isValid (fstate f)) fs)
|}.

(** Modelled from the spec: the Aggregator keeps the fields and the
    composite state it last computed from them. *)
Record t := Make { fields : list Field; composite : CompositeState }.

Definition withState (s : FieldState) (f : Field) : Field :=
  {| descriptor := descriptor f; fstate := s |}.

Definition withValid (b : bool) (s : FieldState) : FieldState :=
  {| isValid := b; isEmpty := isEmpty s; hasFocus := hasFocus s;
     errorCode := errorCode s; brandHint := brandHint s |}.

(** Modelled from the spec: "recomputation is triggered by any FieldState
    change notification" (4.5): field [i] takes the state [s], the composite
    is computed anew. *)
Definition onFieldStateChange (i : nat) (s : FieldState) (a : t) : t :=
  let fs := alter (withState s) i (fields a) in
  Make fs (compute fs).

Definition recompute (a : t) : t := Make (fields a) (compute (fields a)).

Definition init (fs : list Field) : t := Make fs (compute fs).

Definition run (changes : list (nat * FieldState)) (a : t) : t :=
  foldl (λ a c, onFieldStateChange c.1 c.2 a) a changes.

(** The composite state kept is the one the fields give. *)
Definition consistent (a : t) : Prop := composite a = compute (fields a).

End Aggregator.

(** ** A sample page

    One document with a single element, [#card-container] (node 7); the
    imported helpers behave as their names say. *)

Module Sample.

Definition page : Imports := {|
  cardType_isGenericCardType v := bool_decide (v = VStr "card" ∨ v = VStr "scheme");
  falsy v := negb (toBoolean v);
  findRootNode v :=
    match v with
    | VElem n => VElem n
    | VStr s => if String.eqb s "#card-container" then VElem 7 else VNull
    | _ => VNull
    end;
  window_console_error := true;
  CSF := gmap string jsval;
  CSFReturnObject := list string;
  CSF_constructor o := o;
  createReturnObject c := (map_to_list c).*1
|}.

(** [{ type: 'scheme', rootNode: '#card-container', clientKey: 'test_KEY' }] *)
Definition goodSetup : obj :=
  {[ "type" := VStr "scheme"; "rootNode" := VStr "#card-container";
     "clientKey" := VStr "test_KEY" ]}.

(** [{ type: 'card', rootNode: '#nowhere' }] *)
Definition unresolvedNoKey : obj :=
  {[ "type" := VStr "card"; "rootNode" := VStr "#nowhere" ]}.

(** [{ type: 'card', rootNode: '#nowhere', clientKey: 'test_KEY' }] *)
Definition unresolvedWithKey : obj :=
  {[ "type" := VStr "card"; "rootNode" := VStr "#nowhere";
     "clientKey" := VStr "test_KEY" ]}.

(** [{ type: 'card', rootNode: '#nowhere', clientKey: '' }] *)
Definition unresolvedEmptyKey : obj :=
  {[ "type" := VStr "card"; "rootNode" := VStr "#nowhere"; "clientKey" := VStr "" ]}.

(** [{ type: 'card' }] *)
Definition noRootNoKey : obj := {[ "type" := VStr "card" ]}.

(** [{ type: 'bcmc', rootNode: <div>, clientKey: 'test_KEY' }] *)
Definition elementSetup : obj :=
  {[ "type" := VStr "bcmc"; "rootNode" := VElem 3; "clientKey" := VStr "test_KEY" ]}.

Definition stateWith (o : obj) : state := State {[ 1%positive := o ]} [].

(** A session as the server hands it out, and services of which the first
    answers with new session data and the second fails. *)
Definition checkoutSession : obj :=
  {[ "id" := VStr "CS451F2AB1"; "data" := VStr "Ab02b4c0" ]}.

Definition theSession : Session.t :=
  Session.Make 1%positive (VStr "test_KEY") (VStr "https://checkout-test.adyen.com/").

Definition services : Session.SessionServices := {|
  Session.Services_makePayment d this σ :=
    Session.Resolved
      {[ "resultCode" := VStr "Authorised"; "sessionData" := VStr "Ab02b4c0-2" ]};
  Session.Services_submitDetails d this σ := Session.Rejected "NETWORK_ERROR"
|}.

(** The three fields of a card, all valid, the security code optional for
    bcmc; the card number has recognised visa. *)
Definition validState (brand : option string) : Aggregator.FieldState :=
  {| Aggregator.isValid := true; Aggregator.isEmpty := false;
     Aggregator.hasFocus := false; Aggregator.errorCode := None;
     Aggregator.brandHint := brand |}.

Definition pan : Aggregator.Field :=
  {| Aggregator.descriptor :=
       {| Aggregator.name := Aggregator.encryptedCardNumber;
          Aggregator.optionalFor := λ _, false |};
     Aggregator.fstate := validState (Some "visa") |}.

Definition expiry : Aggregator.Field :=
  {| Aggregator.descriptor :=
       {| Aggregator.name := Aggregator.encryptedExpiryDate;
          Aggregator.optionalFor := λ _, false |};
     Aggregator.fstate := validState None |}.

Definition cvc : Aggregator.Field :=
  {| Aggregator.descriptor :=
       {| Aggregator.name := Aggregator.encryptedSecurityCode;
          Aggregator.optionalFor := λ b, String.eqb b "bcmc" |};
     Aggregator.fstate := validState None |}.

Definition cardFields : list Aggregator.Field := [pan; expiry; cvc].

(** Three mounted components, the first and the last with the same _id. *)
Definition mounted : state :=
  State {[ 2%positive := {[ "_id" := VStr "card-1f0e" ]};
           3%positive := {[ "_id" := VStr "ideal-77ab" ]};
           4%positive := {[ "_id" := VStr "card-1f0e" ]} ]} [].

Definition checkout : Core.t := Core.Make [2%positive; 3%positive; 4%positive].

(** A session as the page passes it on a reload, without data; the storage
    holds the session of the same id with its data (object 5).  And a session
    object that lacks the id. *)
Definition bareSession : obj := {[ "id" := VStr "CS451F2AB1" ]}.

Definition storedSession : obj :=
  {[ "id" := VStr "CS451F2AB1"; "data" := VStr "Ab02b4c0-stored" ]}.

Definition noIdSession : obj := {[ "data" := VStr "Ab02b4c0" ]}.

Definition storage : Session.SessionStorage :=
  {| Session.Storage_getStoredSession σ := Some 5%positive |}.

Definition reloaded : state :=
  State {[ 1%positive := bareSession; 5%positive := storedSession ]} [].

(** A Core instance: its options (object 10), modules (11, with the i18n
    module 12), PaymentMethodsResponse (13, its list of payment methods 14),
    bound createFromAction (15), itself (16), and the three components of
    [mounted].  The options have an onError handler (20). *)
Definition coreImports : Checkout.CoreImports := {|
  Checkout.resolveEnvironment v :=
    if strict_eq v (VStr "live")
    then VStr "https://checkoutshopper-live.adyen.com/checkoutshopper/"
    else VStr "https://checkoutshopper-test.adyen.com/checkoutshopper/";
  Checkout.RiskModule _ _ := ∅;
  Checkout.Analytics _ _ := ∅;
  Checkout.Language locale _ _ := {[ "locale" := locale ]};
  Checkout.PaymentMethodsResponse source _ _ :=
    {[ "paymentMethods" := source; "storedPaymentMethods" := VUndefined ]}
|}.

Definition theCore : Checkout.t := {|
  Checkout.self := 16%positive;
  Checkout.createFromAction := 15%positive;
  Checkout.session := None;
  Checkout.paymentMethodsResponse := 13%positive;
  Checkout.modules := 11%positive;
  Checkout.options := 10%positive;
  Checkout.components := [2%positive; 3%positive; 4%positive]
|}.

Definition coreOptions : obj :=
  {[ "clientKey" := VStr "test_KEY"; "environment" := VStr "test";
     "loadingContext" := VStr "https://checkoutshopper-test.adyen.com/checkoutshopper/";
     "locale" := VStr "nl-NL"; "shopperLocale" := VStr "nl-NL";
     "onError" := VRef 20%positive ]}.

Definition coreObjects (options : obj) : gmap positive (gmap string jsval) :=
  {[ 2%positive := {[ "_id" := VStr "card-1f0e" ]};
     3%positive := {[ "_id" := VStr "ideal-77ab" ]};
     4%positive := {[ "_id" := VStr "card-1f0e" ]};
     10%positive := options;
     11%positive := {[ "i18n" := VRef 12%positive ]};
     12%positive := {[ "locale" := VStr "nl-NL" ]};
     13%positive := {[ "paymentMethods" := VRef 14%positive ]};
     14%positive := ∅; 15%positive := ∅; 16%positive := ∅; 20%positive := ∅ ]}.

(** The plain one; one whose options have a session (object 1); one where
    object 30 is passed to setOptions or update. *)
Definition plain : state := State (coreObjects coreOptions) [].

Definition withSession (session : obj) (more : obj) : state :=
  State (<[1%positive := session]>
           (coreObjects (<["session" := VRef 1%positive]> (more ∪ coreOptions)))) [].

Definition passing (options : obj) : state :=
  State (<[30%positive := options]> (coreObjects coreOptions)) [].

Definition passingTwo (first second : obj) : state :=
  State (<[31%positive := second]> (<[30%positive := first]> (coreObjects coreOptions))) [].

(** An order (object 40) with something left to pay. *)
Definition anOrder : obj := {[ "remainingAmount" := VNum 250 ]}.

Definition withOrder (σ : state) : state :=
  State (<[40%positive := anOrder]> (heap σ)) (trace σ).

Definition setupRejects : Session.SetupService :=
  {| Session.Services_setupSession _ _ := Session.Rejected "NETWORK_ERROR" |}.

Definition setupResponse : obj :=
  {[ "id" := VStr "CS451F2AB1"; "sessionData" := VStr "Ab02b4c0";
     "amount" := VNum 1000; "countryCode" := VStr "NL" ]}.

Definition setupResolves : Session.SetupService :=
  {| Session.Services_setupSession _ _ := Session.Resolved setupResponse |}.

End Sample.

(** * Properties of initCSF *)

Section InitCSF_facts.
Context `{Imports}.

Lemma prop_insert_eq (o : obj) k v : prop (<[k := v]> o) k = v.
Proof. unfold prop. by rewrite lookup_insert_eq. Qed.

Lemma prop_insert_ne (o : obj) k k' v : k ≠ k' → prop (<[k := v]> o) k' = prop o k'.
Proof. intros. unfold prop. by rewrite lookup_insert_ne. Qed.

Lemma initCSF_absent σ : initCSF None σ = (Thrown msg_no_config, σ).
Proof. reflexivity. Qed.

Lemma initCSF_present q σ :
  let l := fresh (dom (heap σ)) in
  let o : obj := default ∅ (heap σ !! q) in
  let o1 : obj := <["type" := normalizedType o]> o in
  let o2 : obj := <["rootNode" := findRootNode (prop o "rootNode")]> o1 in
  initCSF (Some q) σ =
    if bool_decide (is_Some (o !! "rootNode")) then
      if falsy (prop o "clientKey") then
        (Returned None, State (<[l := o1]> (heap σ)) (trace σ ++ [logger_warn msg_no_clientKey]))
      else if toBoolean (findRootNode (prop o "rootNode")) then
        (Returned (Some (createReturnObject (CSF_constructor o2))),
         State (<[l := o2]> (heap σ)) (trace σ ++ [new_CSF l]))
      else
        (Returned None,
         State (<[l := o1]> (heap σ))
               (trace σ ++ if window_console_error
                           then [console_error msg_rootNode_not_found (normalizedType o)]
                           else []))
    else
      (Returned None, State (<[l := o1]> (heap σ)) (trace σ ++ [logger_error msg_no_rootNode])).
Proof.
  intros l o o1 o2.
  unfold initCSF, mbind, M_bind, mret, M_ret, spread, get, set, hasOwnProperty, emit, new_CSF_from.
  cbn -[fresh].
  rewrite !lookup_insert_eq. cbn -[fresh].
  rewrite ?alter_insert_eq, ?lookup_insert_eq. cbn -[fresh].
  rewrite ?alter_insert_eq, ?lookup_insert_eq. cbn -[fresh].
  fold o. fold (normalizedType o). fold o1.
  assert (Hrn : o1 !! "rootNode" = o !! "rootNode") by (by apply lookup_insert_ne).
  assert (Hck : prop o1 "clientKey" = prop o "clientKey") by (by apply prop_insert_ne).
  assert (Hr : prop o1 "rootNode" = prop o "rootNode") by (by apply prop_insert_ne).
  assert (Hty : prop o1 "type" = normalizedType o) by apply prop_insert_eq.
  rewrite Hrn.
  destruct (bool_decide (is_Some (o !! "rootNode"))); cbn -[fresh]; [|done].
  rewrite lookup_insert_eq; cbn -[fresh]. rewrite Hck.
  destruct (falsy (prop o "clientKey")); cbn -[fresh]; [done|].
  rewrite lookup_insert_eq; cbn -[fresh]. rewrite Hr.
  destruct (toBoolean (findRootNode (prop o "rootNode"))); cbn -[fresh].
  - by rewrite alter_insert_eq, lookup_insert_eq.
  - destruct window_console_error; cbn -[fresh].
    + rewrite lookup_insert_eq; cbn -[fresh]. by rewrite Hty.
    + by rewrite app_nil_r.
Qed.

(** The same, for a reference to an object that is there. *)
Lemma initCSF_object q σ (o : obj) :
  heap σ !! q = Some o →
  let l := fresh (dom (heap σ)) in
  let o1 : obj := <["type" := normalizedType o]> o in
  let o2 : obj := <["rootNode" := findRootNode (prop o "rootNode")]> o1 in
  initCSF (Some q) σ =
    if bool_decide (is_Some (o !! "rootNode")) then
      if falsy (prop o "clientKey") then
        (Returned None, State (<[l := o1]> (heap σ)) (trace σ ++ [logger_warn msg_no_clientKey]))
      else if toBoolean (findRootNode (prop o "rootNode")) then
        (Returned (Some (createReturnObject (CSF_constructor o2))),
         State (<[l := o2]> (heap σ)) (trace σ ++ [new_CSF l]))
      else
        (Returned None,
         State (<[l := o1]> (heap σ))
               (trace σ ++ if window_console_error
                           then [console_error msg_rootNode_not_found (normalizedType o)]
                           else []))
    else
      (Returned None, State (<[l := o1]> (heap σ)) (trace σ ++ [logger_error msg_no_rootNode])).
Proof.
  intros Hq. pose proof (initCSF_present q σ) as E. cbv zeta in E.
  rewrite Hq in E. cbn [default from_option id] in E. exact E.
Qed.

Lemma emitted_app σ σ' evs : trace σ' = trace σ ++ evs → emitted σ σ' = evs.
Proof. intros E. unfold emitted. rewrite E. by rewrite drop_app_length. Qed.

(** C1 (amended). A setup object without a "rootNode" property makes initCSF
    log the missing-rootNode error and return null; one whose rootNode is
    there but resolves to no element makes it return null as well, after the
    clientKey warning when the key is falsy, and otherwise after the
    cannot-find-rootNode console error (if the console has one).  No CSF is
    constructed in either case. *)
Theorem initCSF_rootNode_failure (q : loc) (σ : state) (o : obj) :
  heap σ !! q = Some o →
  o !! "rootNode" = None ∨ toBoolean (findRootNode (prop o "rootNode")) = false →
  ∃ σ', initCSF (Some q) σ = (Returned None, σ') ∧
        emitted σ σ' =
          (if bool_decide (is_Some (o !! "rootNode")) then
             if falsy (prop o "clientKey") then [logger_warn msg_no_clientKey]
             else if window_console_error
                  then [console_error msg_rootNode_not_found (normalizedType o)]
                  else []
           else [logger_error msg_no_rootNode]) ∧
        existsb constructsCSF (emitted σ σ') = false.
Proof.
  intros Hq Hfail. rewrite (initCSF_object q σ o Hq).
  destruct Hfail as [Hnone | Hunres].
  - rewrite Hnone. rewrite bool_decide_eq_false_2 by apply is_Some_None.
    eexists; split; [done|]. cbn [trace].
    rewrite (emitted_app _ _ [logger_error msg_no_rootNode]) by done. done.
  - rewrite Hunres.
    destruct (bool_decide (is_Some (o !! "rootNode"))).
    + destruct (falsy (prop o "clientKey")).
      * eexists; split; [done|].
        rewrite (emitted_app _ _ [logger_warn msg_no_clientKey]) by done. done.
      * eexists; split; [done|].
        erewrite emitted_app by done. by destruct window_console_error.
    + eexists; split; [done|].
      rewrite (emitted_app _ _ [logger_error msg_no_rootNode]) by done. done.
Qed.

(** C2 (amended). A falsy clientKey makes initCSF return null, without
    throwing and without constructing a CSF; what it emits before is the
    missing-clientKey warning when the setup object has a "rootNode"
    property, and the missing-rootNode error when it has none. *)
Theorem initCSF_missing_clientKey (q : loc) (σ : state) (o : obj) :
  heap σ !! q = Some o →
  falsy (prop o "clientKey") = true →
  ∃ σ', initCSF (Some q) σ = (Returned None, σ') ∧
        emitted σ σ' =
          [if bool_decide (is_Some (o !! "rootNode"))
           then logger_warn msg_no_clientKey
           else logger_error msg_no_rootNode] ∧
        existsb constructsCSF (emitted σ σ') = false.
Proof.
  intros Hq Hck. rewrite (initCSF_object q σ o Hq), Hck.
  destruct (bool_decide (is_Some (o !! "rootNode")));
    (eexists; split; [done|]); erewrite emitted_app by done; done.
Qed.

(** C3 (amended). Called with a setup object, initCSF returns (null or a
    handle) and does not throw; called without one, it throws the error
    'No securedFields configuration object defined' and leaves the state as
    it was. *)
Theorem initCSF_throws_iff_absent (p : option loc) (σ : state) :
  match p with
  | Some q => ∃ r σ', initCSF (Some q) σ = (Returned r, σ')
  | None => initCSF None σ = (Thrown msg_no_config, σ)
  end.
Proof.
  destruct p as [q|]; [|apply initCSF_absent].
  pose proof (initCSF_present q σ) as E. cbv zeta in E. rewrite E.
  repeat case_match; eauto.
Qed.

(** C4 (amended). The checks run in the order: "rootNode" property there,
    clientKey truthy, rootNode resolves to an element.  What initCSF emits is
    decided by the first one that fails: with a rootNode that is there and a
    falsy clientKey it is the clientKey warning, whether the rootNode
    resolves or not. *)
Theorem initCSF_check_order (q : loc) (σ : state) (o : obj) :
  heap σ !! q = Some o →
  ∃ r σ', initCSF (Some q) σ = (r, σ') ∧
    emitted σ σ' =
      if negb (bool_decide (is_Some (o !! "rootNode"))) then
        [logger_error msg_no_rootNode]
      else if falsy (prop o "clientKey") then
        [logger_warn msg_no_clientKey]
      else if negb (toBoolean (findRootNode (prop o "rootNode"))) then
        (if window_console_error
         then [console_error msg_rootNode_not_found (normalizedType o)]
         else [])
      else [new_CSF (fresh (dom (heap σ)))].
Proof.
  intros Hq. rewrite (initCSF_object q σ o Hq).
  repeat case_match; simplify_eq/=;
    (do 2 eexists; split; [done|]); erewrite emitted_app by done; done.
Qed.

(** C5. initCSF works on a copy whose type is 'card' when the given type is
    a generic card type, and the given type otherwise; it is that object the
    CSF is constructed from, and that type the cannot-find-rootNode error
    reports.  The other properties of the copy, "rootNode" apart, are the
    given ones. *)
Theorem initCSF_normalizes_type (q : loc) (σ : state) (o : obj) :
  heap σ !! q = Some o →
  ∃ r σ' (o' : obj),
    initCSF (Some q) σ = (Returned r, σ') ∧
    heap σ' !! fresh (dom (heap σ)) = Some o' ∧
    prop o' "type" =
      (if cardType_isGenericCardType (prop o "type") then VStr "card" else prop o "type") ∧
    (∀ k, k ≠ "type" → k ≠ "rootNode" → o' !! k = o !! k) ∧
    (∀ c, r = Some c → c = createReturnObject (CSF_constructor o')) ∧
    (∀ m a, console_error m a ∈ emitted σ σ' → a = prop o' "type").
Proof.
  intros Hq. rewrite (initCSF_object q σ o Hq).
  assert (Hty : ∀ v, prop (<["rootNode" := v]> (<["type" := normalizedType o]> o)) "type"
                     = normalizedType o).
  { intros v. rewrite prop_insert_ne by done. apply prop_insert_eq. }
  fold (normalizedType o).
  repeat case_match; do 3 eexists;
    (split; [done|]); cbn [heap]; rewrite lookup_insert_eq;
    (split; [done|]); rewrite ?Hty, ?prop_insert_eq;
    (split; [reflexivity|]);
    (split; [intros k ? ?; by rewrite ?lookup_insert_ne by done|]);
    (split; [by intros c [= <-]|]);
    intros m a; erewrite emitted_app by done;
    rewrite ?list_elem_of_singleton; try (by intros [= _ <-]);
    try (by intros ?%elem_of_nil); by intros [=].
Qed.

(** C6. A setup object that has a "rootNode" property resolving to an
    element and a truthy clientKey makes initCSF construct one CSF, from its
    copy of the object with the type normalized and the rootNode replaced by
    the element, and return what createReturnObject gives for that
    instance. *)
Theorem initCSF_success (q : loc) (σ : state) (o : obj) :
  heap σ !! q = Some o →
  is_Some (o !! "rootNode") →
  toBoolean (findRootNode (prop o "rootNode")) = true →
  falsy (prop o "clientKey") = false →
  let l := fresh (dom (heap σ)) in
  let setupObj : obj :=
    <["rootNode" := findRootNode (prop o "rootNode")]> (<["type" := normalizedType o]> o) in
  initCSF (Some q) σ =
    (Returned (Some (createReturnObject (CSF_constructor setupObj))),
     State (<[l := setupObj]> (heap σ)) (trace σ ++ [new_CSF l])).
Proof.
  intros Hq Hrn Hres Hck. rewrite (initCSF_object q σ o Hq), Hres, Hck.
  by rewrite bool_decide_eq_true_2.
Qed.

(** C8. Whatever it is called with, initCSF leaves every object of the heap
    as it found it, the caller's setup object among them: the type and the
    rootNode are written to a new object, and only that one is handed to the
    CSF constructor. *)
Theorem initCSF_leaves_setup_object (p : option loc) (σ : state) (l : loc) (o : obj) :
  heap σ !! l = Some o →
  heap (initCSF p σ).2 !! l = Some o ∧
  ∀ l', new_CSF l' ∈ emitted σ (initCSF p σ).2 → heap σ !! l' = None.
Proof.
  intros Hl. destruct p as [q|].
  2:{ rewrite initCSF_absent. split; [done|]. unfold emitted. cbn.
      rewrite drop_all. by intros ? ?%elem_of_nil. }
  pose proof (initCSF_present q σ) as E. cbv zeta in E. rewrite E. clear E.
  assert (Hfresh : heap σ !! fresh (dom (heap σ)) = None).
  { apply not_elem_of_dom. apply is_fresh. }
  assert (Hne : fresh (dom (heap σ)) ≠ l) by congruence.
  repeat case_match; cbn [snd heap]; rewrite lookup_insert_ne by done;
    (split; [done|]); intros l'; erewrite emitted_app by done;
    rewrite ?list_elem_of_singleton; try (by intros [= ->]);
    try (by intros ?%elem_of_nil); by intros [=].
Qed.

End InitCSF_facts.

(** ** initCSF on the sample page *)

Section InitCSF_sample.
Import Sample.
Existing Instance page.

Lemma initCSF_rootNode_failure_witness :
  ∃ σ', initCSF (Some 1%positive) (stateWith unresolvedWithKey) = (Returned None, σ') ∧
        emitted (stateWith unresolvedWithKey) σ' =
          [console_error msg_rootNode_not_found (VStr "card")] ∧
        existsb constructsCSF (emitted (stateWith unresolvedWithKey) σ') = false.
Proof.
  exact (initCSF_rootNode_failure 1%positive (stateWith unresolvedWithKey) unresolvedWithKey
           eq_refl (or_intror eq_refl)).
Defined.

(** Against C1 as stated: [{ type: 'card', rootNode: '#nowhere' }] has a
    rootNode that resolves to nothing, and initCSF returns null having
    emitted the clientKey warning only: no event of the trace is about the
    root node. *)
Lemma initCSF_unresolved_rootNode_counterexample :
  toBoolean (findRootNode (prop unresolvedNoKey "rootNode")) = false ∧
  (initCSF (Some 1%positive) (stateWith unresolvedNoKey)).1 = Returned None ∧
  trace (initCSF (Some 1%positive) (stateWith unresolvedNoKey)).2
    = [logger_warn msg_no_clientKey] ∧
  existsb RootNodeNotFound (trace (initCSF (Some 1%positive) (stateWith unresolvedNoKey)).2)
    = false.
Proof. repeat split; vm_compute; reflexivity. Qed.

Lemma initCSF_missing_clientKey_witness :
  ∃ σ', initCSF (Some 1%positive) (stateWith unresolvedNoKey) = (Returned None, σ') ∧
        emitted (stateWith unresolvedNoKey) σ' = [logger_warn msg_no_clientKey] ∧
        existsb constructsCSF (emitted (stateWith unresolvedNoKey) σ') = false.
Proof.
  exact (initCSF_missing_clientKey 1%positive (stateWith unresolvedNoKey) unresolvedNoKey
           eq_refl eq_refl).
Defined.

(** Against C2 as stated: [{ type: 'card' }] has no clientKey, and initCSF
    returns null having emitted the missing-rootNode error: the trace holds
    no warning. *)
Lemma initCSF_missing_clientKey_counterexample :
  falsy (prop noRootNoKey "clientKey") = true ∧
  (initCSF (Some 1%positive) (stateWith noRootNoKey)).1 = Returned None ∧
  trace (initCSF (Some 1%positive) (stateWith noRootNoKey)).2
    = [logger_error msg_no_rootNode] ∧
  existsb warning (trace (initCSF (Some 1%positive) (stateWith noRootNoKey)).2) = false.
Proof. repeat split; vm_compute; reflexivity. Qed.

(** Against C3 as stated: without a setup object initCSF throws. *)
Lemma initCSF_absent_counterexample :
  initCSF None (State ∅ []) = (Thrown msg_no_config, State ∅ []).
Proof. reflexivity. Qed.

Lemma initCSF_check_order_witness :
  ∃ r σ', initCSF (Some 1%positive) (stateWith goodSetup) = (r, σ') ∧
          emitted (stateWith goodSetup) σ' = [new_CSF 2%positive].
Proof. exact (initCSF_check_order 1%positive (stateWith goodSetup) goodSetup eq_refl). Defined.

(** Against C4 as stated:
    [{ type: 'card', rootNode: '#nowhere', clientKey: '' }] has a rootNode
    that does not resolve and no usable clientKey; what initCSF reports is
    the clientKey warning, and nothing about the root node. *)
Lemma initCSF_check_order_counterexample :
  is_Some (unresolvedEmptyKey !! "rootNode") ∧
  toBoolean (findRootNode (prop unresolvedEmptyKey "rootNode")) = false ∧
  falsy (prop unresolvedEmptyKey "clientKey") = true ∧
  existsb MissingCredential
    (trace (initCSF (Some 1%positive) (stateWith unresolvedEmptyKey)).2) = true ∧
  existsb RootNodeNotFound
    (trace (initCSF (Some 1%positive) (stateWith unresolvedEmptyKey)).2) = false.
Proof. split; [by eexists|]. repeat split; vm_compute; reflexivity. Qed.

Lemma initCSF_normalizes_type_witness :
  ∃ r σ' (o' : obj),
    initCSF (Some 1%positive) (stateWith goodSetup) = (Returned r, σ') ∧
    heap σ' !! 2%positive = Some o' ∧
    prop o' "type" = VStr "card" ∧
    (∀ k, k ≠ "type" → k ≠ "rootNode" → o' !! k = goodSetup !! k) ∧
    (∀ c, r = Some c → c = createReturnObject (CSF_constructor o')) ∧
    (∀ m a, console_error m a ∈ emitted (stateWith goodSetup) σ' → a = prop o' "type").
Proof. exact (initCSF_normalizes_type 1%positive (stateWith goodSetup) goodSetup eq_refl). Defined.

Lemma initCSF_success_witness :
  initCSF (Some 1%positive) (stateWith goodSetup) =
    (Returned (Some ["clientKey"; "rootNode"; "type"]),
     State {[ 1%positive := goodSetup;
              2%positive := {[ "type" := VStr "card"; "rootNode" := VElem 7;
                               "clientKey" := VStr "test_KEY" ]} ]}
           [new_CSF 2%positive]).
Proof.
  exact (initCSF_success 1%positive (stateWith goodSetup) goodSetup
           eq_refl (ex_intro _ _ eq_refl) eq_refl eq_refl).
Defined.

Lemma initCSF_leaves_setup_object_witness :
  heap (initCSF (Some 1%positive) (stateWith elementSetup)).2 !! 1%positive = Some elementSetup ∧
  ∀ l', new_CSF l' ∈ emitted (stateWith elementSetup)
                             (initCSF (Some 1%positive) (stateWith elementSetup)).2 →
        heap (stateWith elementSetup) !! l' = None.
Proof.
  exact (initCSF_leaves_setup_object (Some 1%positive) (stateWith elementSetup) 1%positive
           elementSetup eq_refl).
Defined.
End InitCSF_sample.

(** * Properties of Session *)

Section Session_facts.
Import Session.
Context `{SessionServices}.

Lemma updateSessionData_eq this v σ :
  updateSessionData this v σ =
    (Returned (),
     State (alter (<["data" := v]>) (session this) (heap σ))
           (trace σ ++ [storeSession_call
                          (default ∅ (alter (<["data" := v]>) (session this) (heap σ)
                                      !! session this))])).
Proof. reflexivity. Qed.

Lemma id_after_alter this v σ tr :
  (id this (State (alter (<["data" := v]>) (session this) (heap σ)) tr)).1 = (id this σ).1.
Proof.
  unfold id, get. cbn. rewrite lookup_alter_eq.
  destruct (heap σ !! session this) as [s|]; cbn; [|done].
  by rewrite prop_insert_ne.
Qed.

Lemma makePayment_cases this d σ :
  (makePayment this d σ).2 = σ ∨
  ∃ v, (makePayment this d σ).2 = (updateSessionData this v σ).2.
Proof.
  unfold makePayment, mbind, M_bind, await.
  destruct (Services_makePayment d this σ) as [response|e]; [|by left].
  destruct (toBoolean (prop response "sessionData")); [right|by left].
  eexists. by rewrite updateSessionData_eq.
Qed.

Lemma submitDetails_cases this d σ :
  (submitDetails this d σ).2 = σ ∨
  ∃ v, (submitDetails this d σ).2 = (updateSessionData this v σ).2.
Proof.
  unfold submitDetails, mbind, M_bind, await.
  destruct (Services_submitDetails d this σ) as [response|e]; [|by left].
  destruct (toBoolean (prop response "sessionData")); [right|by left].
  eexists. by rewrite updateSessionData_eq.
Qed.

(** C9. updateSessionData writes latestData to the "data" property of the
    session object and to nothing else: the other properties of that object
    and all other objects stay as they were, and one storeSession call is
    made.  The id getter gives the same value after updateSessionData, after
    makePayment and after submitDetails as before. *)
Theorem updateSessionData_keeps_id (this : Session.t) (latestData d : jsval)
    (σ : state) (s : obj) :
  heap σ !! session this = Some s →
  updateSessionData this latestData σ =
    (Returned (),
     State (<[session this := <["data" := latestData]> s]> (heap σ))
           (trace σ ++ [storeSession_call (<["data" := latestData]> s)])) ∧
  (∀ k, k ≠ "data" → (<["data" := latestData]> s) !! k = s !! k) ∧
  (data this (updateSessionData this latestData σ).2).1 = Returned latestData ∧
  (id this (updateSessionData this latestData σ).2).1 = (id this σ).1 ∧
  (id this (makePayment this d σ).2).1 = (id this σ).1 ∧
  (id this (submitDetails this d σ).2).1 = (id this σ).1.
Proof.
  intros Hs. split_and!.
  - rewrite updateSessionData_eq. rewrite lookup_alter_eq, Hs. cbn.
    do 3 f_equal. apply map_eq. intros l.
    destruct (decide (session this = l)) as [<-|Hne].
    + by rewrite lookup_alter_eq, lookup_insert_eq, Hs.
    + by rewrite lookup_alter_ne, lookup_insert_ne.
  - intros k Hk. by rewrite lookup_insert_ne.
  - rewrite updateSessionData_eq. unfold data, get. cbn.
    rewrite lookup_alter_eq, Hs. cbn. by rewrite prop_insert_eq.
  - rewrite updateSessionData_eq. apply id_after_alter.
  - destruct (makePayment_cases this d σ) as [->|[v ->]]; [done|].
    rewrite updateSessionData_eq. apply id_after_alter.
  - destruct (submitDetails_cases this d σ) as [->|[v ->]]; [done|].
    rewrite updateSessionData_eq. apply id_after_alter.
Qed.
End Session_facts.

(** * Properties of Core.remove *)

Section Core_facts.
Import Core.

Lemma sublist_filter_max {A} (P : A → Prop) `{!∀ x, Decision (P x)} (l k : list A) :
  l `sublist_of` k → Forall P l → l `sublist_of` filter P k.
Proof.
  induction 1 as [|x l k Hlk IH|x l k Hlk IH]; intros HP.
  - apply sublist_nil_l.
  - apply Forall_cons in HP as [HPx HP].
    rewrite filter_cons_True by done. apply sublist_skip. by apply IH.
  - rewrite filter_cons. case_decide; [apply sublist_cons|]; by apply IH.
Qed.

(** C10. remove(component) keeps, in their order, exactly the components
    whose _id differs (!==) from that of the argument: none with that _id is
    left, the result is a sublist of the former list, and any sublist of the
    former list made of components with another _id is a sublist of the
    result.  It calls unmount on the argument once and touches no object. *)
Theorem remove_spec (this : Core.t) (component : loc) (σ : state) :
  ∃ this' σ',
    remove this component σ = (Returned this', σ') ∧
    Forall (λ c, strict_eq (_id (heap σ) c) (_id (heap σ) component) = false)
           (components this') ∧
    components this' `sublist_of` components this ∧
    (∀ l, l `sublist_of` components this →
          Forall (λ c, strict_eq (_id (heap σ) c) (_id (heap σ) component) = false) l →
          l `sublist_of` components this') ∧
    emitted σ σ' = [unmount_call component] ∧
    heap σ' = heap σ.
Proof.
  do 2 eexists. split; [reflexivity|]. cbn [components]. split_and!.
  - apply Forall_forall. by intros c [? _]%list_elem_of_filter.
  - apply sublist_filter.
  - intros l Hl HP. by apply sublist_filter_max.
  - by apply emitted_app.
  - done.
Qed.

(** On the sample page: both components with the _id of the argument leave
    the list, the argument alone is unmounted. *)
Example remove_mounted :
  remove Sample.checkout 2%positive Sample.mounted
    = (Returned (Core.Make [3%positive]),
       State (heap Sample.mounted) [unmount_call 2%positive]).
Proof. reflexivity. Qed.
End Core_facts.

(** * Properties of the Aggregator *)

Section Aggregator_facts.
Import Aggregator.

Lemma allValid_Forall fs :
  allValid fs = true ↔
  Forall (λ g, required (detectedBrand fs) (descriptor g) = true → isValid (fstate g) = true) fs.
Proof.
  unfold allValid. rewrite forallb_forall, Forall_forall.
  split; intros Hall g Hg.
  - apply list_elem_of_In, Hall in Hg. intros Hreq. by rewrite Hreq in Hg.
  - apply list_elem_of_In in Hg. specialize (Hall g Hg).
    destruct (required (detectedBrand fs) (descriptor g)); [by rewrite Hall|done].
Qed.

Lemma detectedBrand_alter fs i f b :
  fs !! i = Some f →
  detectedBrand (alter (withState (withValid b (fstate f))) i fs) = detectedBrand fs.
Proof.
  unfold detectedBrand. revert i. induction fs as [|g fs IH]; intros [|i] Hi; try done.
  - injection Hi as ->. cbn. by case_bool_decide.
  - cbn. case_bool_decide; [done|]. by apply IH.
Qed.

Lemma run_consistent changes a : consistent a → consistent (run changes a).
Proof.
  unfold run. revert a. induction changes as [|c changes IH]; intros a Ha; [done|].
  cbn. by apply IH.
Qed.

Lemma recompute_consistent a : consistent a → recompute a = a.
Proof. destruct a as [fs c]. unfold consistent, recompute. cbn. by intros ->. Qed.

(** C7. The aggregate is never stale: after any changes, the composite state
    kept is the one computed from the current field states, and computing it
    again changes nothing.  Its allValid is true exactly when every field
    required under the detected brand is valid.  Turning a required, valid
    field invalid makes allValid false; turning it valid again gives back
    the composite state there was before. *)
Theorem allValid_iff_required_valid (fs : list Field) (changes : list (nat * FieldState)) :
  let a := run changes (init fs) in
  composite a = compute (fields a) ∧
  recompute a = a ∧
  recompute (recompute a) = recompute a ∧
  (cs_allValid (composite a) = true ↔
     Forall (λ g, required (cs_detectedBrand (composite a)) (descriptor g) = true →
                  isValid (fstate g) = true) (fields a)) ∧
  (∀ i f,
     fields a !! i = Some f →
     required (cs_detectedBrand (composite a)) (descriptor f) = true →
     isValid (fstate f) = true →
     let a1 := onFieldStateChange i (withValid false (fstate f)) a in
     let a2 := onFieldStateChange i (withValid true (fstate f)) a1 in
     cs_allValid (composite a1) = false ∧ a2 = a).
Proof.
  intros a.
  assert (Ha : consistent a) by (by apply run_consistent).
  split_and!.
  - exact Ha.
  - by apply recompute_consistent.
  - done.
  - rewrite Ha. apply allValid_Forall.
  - intros i f Hi Hreq Hval a1 a2. rewrite Ha in Hreq. cbn in Hreq. split.
    + cbn. apply not_true_is_false. intros Hall%allValid_Forall.
      rewrite detectedBrand_alter in Hall by done.
      rewrite Forall_forall in Hall.
      assert (Hin : withState (withValid false (fstate f)) f
                    ∈ alter (withState (withValid false (fstate f))) i (fields a)).
      { apply list_elem_of_lookup. exists i. by rewrite list_lookup_alter_eq, Hi. }
      by specialize (Hall _ Hin Hreq).
    + unfold a2, a1, onFieldStateChange. cbn [fields].
      rewrite list_alter_alter_eq.
      rewrite (list_alter_ext _ (λ x, x) _ (fields a) i); [| |done].
      * rewrite list_alter_id by done. by apply (recompute_consistent a).
      * intros g Hg. rewrite Hi in Hg. injection Hg as <-.
        destruct f as [d [v e h c b]]. cbn in *. by subst.
Qed.
End Aggregator_facts.

(** ** Session and Aggregator on the sample page *)

Section Session_sample.
Import Sample Session.
Existing Instance services.

Lemma updateSessionData_keeps_id_witness :
  updateSessionData theSession (VStr "Ab02b4c0-2") (stateWith checkoutSession) =
    (Returned (),
     State (<[session theSession := <["data" := VStr "Ab02b4c0-2"]> checkoutSession]>
              (heap (stateWith checkoutSession)))
           (trace (stateWith checkoutSession)
            ++ [storeSession_call (<["data" := VStr "Ab02b4c0-2"]> checkoutSession)])) ∧
  (∀ k, k ≠ "data" → (<["data" := VStr "Ab02b4c0-2"]> checkoutSession) !! k
                      = checkoutSession !! k) ∧
  (data theSession
     (updateSessionData theSession (VStr "Ab02b4c0-2") (stateWith checkoutSession)).2).1
    = Returned (VStr "Ab02b4c0-2") ∧
  (id theSession
     (updateSessionData theSession (VStr "Ab02b4c0-2") (stateWith checkoutSession)).2).1
    = (id theSession (stateWith checkoutSession)).1 ∧
  (id theSession (makePayment theSession VUndefined (stateWith checkoutSession)).2).1
    = (id theSession (stateWith checkoutSession)).1 ∧
  (id theSession (submitDetails theSession VUndefined (stateWith checkoutSession)).2).1
    = (id theSession (stateWith checkoutSession)).1.
Proof.
  exact (updateSessionData_keeps_id theSession (VStr "Ab02b4c0-2") VUndefined
           (stateWith checkoutSession) checkoutSession eq_refl).
Defined.
End Session_sample.

Section Aggregator_sample.
Import Sample Aggregator.

Lemma allValid_iff_required_valid_witness :
  cs_allValid (composite (onFieldStateChange 0 (withValid false (fstate pan))
                                             (init cardFields))) = false ∧
  onFieldStateChange 0 (withValid true (fstate pan))
    (onFieldStateChange 0 (withValid false (fstate pan)) (init cardFields))
  = init cardFields.
Proof.
  exact (proj2 (proj2 (proj2 (proj2 (allValid_iff_required_valid cardFields []))))
           0 pan eq_refl eq_refl eq_refl).
Defined.
End Aggregator_sample.

(** * More on Session: construction, sequences of calls *)

Section Session_construction_facts.
Import Session.
Context `{SessionStorage}.

Lemma getStoredSession_eq this σ :
  getStoredSession this σ =
    (Returned (if strict_eq (given σ (session this) "id")
                            (match Storage_getStoredSession σ with
                             | Some l => given σ l "id"
                             | None => VUndefined
                             end)
               then Storage_getStoredSession σ else Some (session this)), σ).
Proof.
  unfold getStoredSession, ask, id, get, mbind, M_bind, mret, M_ret, given. cbn.
  by destruct (Storage_getStoredSession σ).
Qed.

Lemma getStoredSession_is_Some this σ :
  toBoolean (given σ (session this) "id") = true →
  ∃ l, getStoredSession this σ = (Returned (Some l), σ) ∧
       given σ l "id" = given σ (session this) "id".
Proof.
  intros Hid. rewrite getStoredSession_eq. unfold strict_eq.
  destruct (Storage_getStoredSession σ) as [l|].
  - case_bool_decide as E; eauto.
  - case_bool_decide as E; [|eauto]. rewrite E in Hid. done.
Qed.

Lemma constructor_eq session ck lc σ :
  constructor session ck lc σ =
    if negb (toBoolean (given σ session "id")) then (Thrown msg_no_session_id, σ)
    else if negb (toBoolean ck) then (Thrown msg_no_session_clientKey, σ)
    else if negb (toBoolean (given σ session "data")) then
      match (getStoredSession (Make session VUndefined VUndefined) σ).1 with
      | Returned stored => (Returned (Make (default session stored) ck lc), σ)
      | Thrown e => (Thrown e, σ)
      end
    else (Returned (Make session ck lc),
          State (heap σ) (trace σ ++ [storeSession_call (default ∅ (heap σ !! session))])).
Proof.
  unfold constructor, mbind, M_bind, get, data, get, given. cbn.
  destruct (toBoolean (prop (default ∅ (heap σ !! session)) "id")); cbn; [|done].
  destruct (toBoolean ck); cbn; [|done].
  destruct (toBoolean (prop (default ∅ (heap σ !! session)) "data")); cbn; [done|].
  rewrite getStoredSession_eq. done.
Qed.

(** X1. new Session throws 'No Session ID' when the session has no (truthy)
    id, whatever the clientKey, and 'No clientKey available' when the id is
    there and the clientKey is not; in both cases nothing is stored and no
    object is touched. *)
Theorem constructor_rejects (session : loc) (clientKey loadingContext : jsval) (σ : state) :
  toBoolean (given σ session "id") && toBoolean clientKey = false →
  constructor session clientKey loadingContext σ =
    (Thrown (if toBoolean (given σ session "id")
             then msg_no_session_clientKey else msg_no_session_id), σ).
Proof.
  intros Hbad. rewrite constructor_eq.
  destruct (toBoolean (given σ session "id")); cbn in *; [|done].
  by rewrite Hbad.
Qed.

(** X2. A Session that could be constructed has the id of the session object
    it was constructed from, also when the session was taken from the
    storage; it holds the clientKey and the loadingContext it was given, and
    its construction changed no object. *)
Theorem constructor_keeps_id (session : loc) (clientKey loadingContext : jsval) (σ : state) :
  toBoolean (given σ session "id") = true →
  toBoolean clientKey = true →
  ∃ this σ',
    constructor session clientKey loadingContext σ = (Returned this, σ') ∧
    heap σ' = heap σ ∧
    (id this σ').1 = Returned (given σ session "id") ∧
    Session.clientKey this = clientKey ∧
    Session.loadingContext this = loadingContext.
Proof.
  intros Hid Hck. rewrite constructor_eq, Hid, Hck. cbn [negb].
  destruct (toBoolean (given σ session "data")); cbn [negb].
  - by do 2 eexists.
  - destruct (getStoredSession_is_Some (Make session VUndefined VUndefined) σ Hid)
      as (l & -> & Hl). cbn.
    do 2 eexists. split_and!; try done. unfold id, get. cbn. by f_equal.
Qed.

(** X3. A session object that comes with data is the one the Session uses,
    and it is stored, once, as it is.  One that comes without data is never
    written to the storage; the stored session takes its place exactly when
    there is one with the same id. *)
Theorem constructor_storage (session : loc) (clientKey loadingContext : jsval) (σ : state) :
  toBoolean (given σ session "id") = true →
  toBoolean clientKey = true →
  ∃ this σ',
    constructor session clientKey loadingContext σ = (Returned this, σ') ∧
    emitted σ σ' =
      (if toBoolean (given σ session "data")
       then [storeSession_call (default ∅ (heap σ !! session))] else []) ∧
    Session.session this =
      (if toBoolean (given σ session "data") then session
       else match Storage_getStoredSession σ with
            | Some l => if strict_eq (given σ session "id") (given σ l "id")
                        then l else session
            | None => session
            end).
Proof.
  intros Hid Hck. rewrite constructor_eq, Hid, Hck. cbn [negb].
  destruct (toBoolean (given σ session "data")); cbn [negb].
  - do 2 eexists. split; [done|]. split; [|done]. by apply emitted_app.
  - rewrite getStoredSession_eq. cbn.
    do 2 eexists. split; [done|]. split.
    + apply emitted_app. by rewrite app_nil_r.
    + cbn. destruct (Storage_getStoredSession σ) as [l|]; cbn.
      * by destruct (strict_eq _ _).
      * unfold strict_eq. case_bool_decide as E; [|done].
        rewrite E in Hid. done.
Qed.
End Session_construction_facts.

Section Session_calls_facts.
Import Session.
Context `{SessionServices}.

(** What one call can do to the state: nothing, or what an
    [updateSessionData] does. *)
Lemma perform_cases this c σ :
  perform this c σ = σ ∨ ∃ v, perform this c σ = (updateSessionData this v σ).2.
Proof.
  destruct c as [v|d|d]; cbn.
  - right. by exists v.
  - apply makePayment_cases.
  - apply submitDetails_cases.
Qed.

Lemma evolved_refl this σ : evolved this σ σ.
Proof.
  exists []. rewrite app_nil_r. split_and!; try done. by left.
Qed.

Lemma evolved_update this v σ : evolved this σ (updateSessionData this v σ).2.
Proof.
  rewrite updateSessionData_eq. cbn [snd].
  eexists. split; [done|]. split_and!.
  - apply Forall_singleton. by eexists.
  - intros l Hl. cbn. by rewrite lookup_alter_ne.
  - intros k Hk. unfold given. cbn. rewrite lookup_alter_eq.
    destruct (heap σ !! session this) as [s|]; cbn; [|done].
    by rewrite prop_insert_ne.
  - by right.
Qed.

Lemma evolved_perform this c σ : evolved this σ (perform this c σ).
Proof.
  destruct (perform_cases this c σ) as [->|[v ->]].
  - apply evolved_refl.
  - apply evolved_update.
Qed.

Lemma evolved_trans this σ1 σ2 σ3 :
  evolved this σ1 σ2 → evolved this σ2 σ3 → evolved this σ1 σ3.
Proof.
  intros (evs1 & Ht1 & Hs1 & Ho1 & Hk1 & Hl1) (evs2 & Ht2 & Hs2 & Ho2 & Hk2 & Hl2).
  exists (evs1 ++ evs2). split_and!.
  - by rewrite Ht2, Ht1, app_assoc.
  - by apply Forall_app.
  - intros l Hl. by rewrite Ho2, Ho1.
  - intros k Hk. by rewrite Hk2, Hk1.
  - destruct Hl2 as [[-> Hh2]|Hlast2].
    + rewrite app_nil_r. destruct Hl1 as [[-> Hh1]|Hlast1].
      * left. split; [done|]. by rewrite Hh2.
      * right. by rewrite Hh2.
    + right. destruct evs2 as [|e evs2]; [done|].
      by rewrite last_app_cons.
Qed.

Lemma evolved_performAll this cs σ : evolved this σ (performAll this cs σ).
Proof.
  unfold performAll. revert σ. induction cs as [|c cs IH]; intros σ; cbn.
  - apply evolved_refl.
  - eapply evolved_trans; [apply evolved_perform|apply IH].
Qed.

(** X4. Over any sequence of updateSessionData, makePayment and submitDetails
    calls on a Session, resolved or rejected: the id getter keeps giving the
    same value, no property of the session object other than "data" and no
    other object changes, nothing but storeSession is called, and whenever
    something was stored the last thing stored is the session object as it
    is at the end (if nothing was stored, nothing changed). *)
Theorem performAll_invariant (this : Session.t) (cs : list call) (σ : state) :
  let σ' := performAll this cs σ in
  (id this σ').1 = (id this σ).1 ∧
  (∀ k, k ≠ "data" → (get (session this) k σ').1 = (get (session this) k σ).1) ∧
  (∀ l, l ≠ session this → heap σ' !! l = heap σ !! l) ∧
  Forall (λ e, ∃ o, e = storeSession_call o) (emitted σ σ') ∧
  (emitted σ σ' = [] ∧ heap σ' = heap σ ∨
   last (emitted σ σ') = Some (storeSession_call (default ∅ (heap σ' !! session this)))).
Proof.
  intros σ'. destruct (evolved_performAll this cs σ) as (evs & Ht & Hs & Ho & Hk & Hl).
  fold σ' in Ht, Ho, Hk, Hl. rewrite (emitted_app _ _ _ Ht).
  split_and!; try done.
  - unfold id, get. cbn. f_equal. by apply Hk.
  - intros k Hk'. unfold get. cbn. f_equal. by apply Hk.
Qed.

(** X5. A payment whose response carries session data makes that the data of
    the session and stores the session so updated; with a response that
    carries none the data stay and nothing is stored.  The response is handed
    on as it came.  A rejected payment is passed on as it is and leaves the
    state as it was. *)
Theorem makePayment_outcome (this : Session.t) (d : jsval) (σ : state) (s : obj) :
  heap σ !! session this = Some s →
  match Services_makePayment d this σ with
  | Resolved response =>
      let sessionData := prop response "sessionData" in
      (makePayment this d σ).1 = Returned response ∧
      (data this (makePayment this d σ).2).1
        = Returned (if toBoolean sessionData then sessionData else prop s "data") ∧
      emitted σ (makePayment this d σ).2
        = (if toBoolean sessionData
           then [storeSession_call (<["data" := sessionData]> s)] else [])
  | Rejected reason => makePayment this d σ = (Thrown reason, σ)
  end.
Proof.
  intros Hs. unfold makePayment, mbind, M_bind, await.
  destruct (Services_makePayment d this σ) as [response|e]; [|done].
  cbn zeta. destruct (toBoolean (prop response "sessionData")).
  - rewrite updateSessionData_eq. cbn. split; [done|].
    rewrite lookup_alter_eq, Hs. cbn. split.
    + by rewrite prop_insert_eq.
    + by apply emitted_app.
  - cbn. split; [done|]. split.
    + unfold data, get. cbn. by rewrite Hs.
    + apply emitted_app. by rewrite app_nil_r.
Qed.
End Session_calls_facts.

Section Session_sharing_facts.
Import Session.
Context `{SessionStorage}.

(** X6. The Session works on the session object it was given, not on a copy:
    when that object came with data, an updateSessionData on the new Session
    writes the data of the caller's own object. *)
Theorem constructor_shares_session (session : loc) (clientKey loadingContext v : jsval)
    (σ : state) (s : obj) :
  heap σ !! session = Some s →
  toBoolean (prop s "id") = true →
  toBoolean clientKey = true →
  toBoolean (prop s "data") = true →
  ∃ this σ1,
    constructor session clientKey loadingContext σ = (Returned this, σ1) ∧
    heap (updateSessionData this v σ1).2 !! session = Some (<["data" := v]> s).
Proof.
  intros Hs Hid Hck Hdata. rewrite constructor_eq. unfold given. rewrite Hs. cbn.
  rewrite Hid, Hck, Hdata. cbn.
  do 2 eexists. split; [done|].
  rewrite updateSessionData_eq. cbn. by rewrite lookup_alter_eq, Hs.
Qed.
End Session_sharing_facts.

(** * More on Core.remove *)

Section Core_remove_facts.
Import Core.

Lemma remove_eq this component σ :
  remove this component σ =
    (Returned (Make (filter (λ c, strict_eq (_id (heap σ) c) (_id (heap σ) component) = false)
                            (components this))),
     State (heap σ) (trace σ ++ [unmount_call component])).
Proof. reflexivity. Qed.

(** X7. Removing a component whose _id no registered component has leaves
    the list as it is, and still unmounts the component. *)
Theorem remove_unregistered (this : Core.t) (component : loc) (σ : state) :
  Forall (λ c, _id (heap σ) c ≠ _id (heap σ) component) (components this) →
  ∃ σ', remove this component σ = (Returned this, σ') ∧
        emitted σ σ' = [unmount_call component].
Proof.
  intros Hall. rewrite remove_eq.
  assert (Hkeep : filter (λ c, strict_eq (_id (heap σ) c) (_id (heap σ) component) = false)
                         (components this) = components this).
  { induction Hall as [|c cs Hc Hall IH]; [done|].
    rewrite filter_cons_True; [by f_equal|].
    unfold strict_eq. by apply bool_decide_eq_false_2. }
  rewrite Hkeep. destruct this as [cs]. eexists. split; [done|]. by apply emitted_app.
Qed.

(** X8. Removing the same component a second time changes the list no
    further, and unmounts the component a second time. *)
Theorem remove_twice (this this1 this2 : Core.t) (component : loc) (σ σ1 σ2 : state) :
  remove this component σ = (Returned this1, σ1) →
  remove this1 component σ1 = (Returned this2, σ2) →
  components this2 = components this1 ∧
  emitted σ σ2 = [unmount_call component; unmount_call component].
Proof.
  rewrite !remove_eq. intros [= <- <-] [= <- <-]. cbn. split.
  - rewrite list_filter_filter. apply list_filter_iff. intros c. tauto.
  - apply emitted_app. by rewrite <-app_assoc.
Qed.

(** X9. The order in which two components are removed does not matter to the
    list that is left. *)
Theorem remove_commutes (this ta tab tb tba : Core.t) (a b : loc) (σ σa σab σb σba : state) :
  remove this a σ = (Returned ta, σa) →
  remove ta b σa = (Returned tab, σab) →
  remove this b σ = (Returned tb, σb) →
  remove tb a σb = (Returned tba, σba) →
  components tab = components tba ∧ heap σab = heap σba.
Proof.
  rewrite !remove_eq. intros [= <- <-] [= <- <-] [= <- <-] [= <- <-]. cbn.
  split; [|done]. rewrite !list_filter_filter. apply list_filter_iff. intros c. tauto.
Qed.
End Core_remove_facts.

(** * The Core instance: props, options, initialisation, update *)

Section Checkout_props_facts.
Import Checkout.

Lemma fresh_lookup_None (h : gmap loc obj) : h !! fresh (dom h) = None.
Proof. apply not_elem_of_dom, is_fresh. Qed.

Lemma alloc_keeps (h : gmap loc obj) (o o' : obj) l :
  h !! l = Some o → <[fresh (dom h) := o']> h !! l = Some o.
Proof.
  intros Hl. rewrite lookup_insert_ne; [done|].
  intros E. rewrite <-E, fresh_lookup_None in Hl. done.
Qed.

(** X10. The props a component gets: "i18n", "modules", "session",
    "createFromAction" and "_parentInstance" are those of the Core instance,
    whatever the options say; every other property of the options is passed
    on as it is; "paymentMethods" and "storedPaymentMethods" come from the
    PaymentMethodsResponse unless the options have a property of that name.
    The props are a new object, and no object there was is changed. *)
Theorem getPropsForComponent_precedence (this : Checkout.t) (options : option loc)
    (σ : state) :
  let passed : obj := default ∅ (options ≫= λ l, heap σ !! l) in
  ∃ props σ' (p : obj),
    getPropsForComponent this options σ = (Returned props, σ') ∧
    heap σ !! props = None ∧
    heap σ' = <[props := p]> (heap σ) ∧
    p !! "i18n" = Some (given σ (modules this) "i18n") ∧
    p !! "modules" = Some (VRef (modules this)) ∧
    p !! "session" = Some (sessionValue this) ∧
    p !! "createFromAction" = Some (VRef (createFromAction this)) ∧
    p !! "_parentInstance" = Some (VRef (self this)) ∧
    (∀ k, k ∉ ["i18n"; "modules"; "session"; "createFromAction"; "_parentInstance"] →
          p !! k =
            match passed !! k with
            | Some v => Some v
            | None =>
                if bool_decide (k = "paymentMethods" ∨ k = "storedPaymentMethods")
                then Some (given σ (paymentMethodsResponse this) k)
                else None
            end).
Proof.
  intros passed.
  assert (Hc : (match options with Some l => contents l | None => mret ∅ end) σ
               = (Returned passed, σ)) by (by destruct options).
  unfold getPropsForComponent, mbind, M_bind, get. cbn -[fresh].
  rewrite Hc. cbn -[fresh]. unfold alloc. cbn -[fresh].
  do 3 eexists. split; [reflexivity|]. split; [apply fresh_lookup_None|].
  split; [reflexivity|].
  split_and!;
    try (repeat first [rewrite lookup_insert_eq | rewrite lookup_insert_ne by done]; done).
  intros k Hk. repeat (apply not_elem_of_cons in Hk as [? Hk]).
  rewrite !lookup_insert_ne by done.
  destruct (passed !! k) as [v|] eqn:Hp.
  - by apply lookup_union_Some_l.
  - rewrite lookup_union_r by done. unfold given, prop.
    destruct (decide (k = "storedPaymentMethods")) as [->|Hs].
    { rewrite lookup_insert_eq. by rewrite bool_decide_eq_true_2 by auto. }
    rewrite lookup_insert_ne by done.
    destruct (decide (k = "paymentMethods")) as [->|Hm].
    { rewrite lookup_singleton_eq. by rewrite bool_decide_eq_true_2 by auto. }
    rewrite lookup_singleton_ne by done.
    by rewrite bool_decide_eq_false_2 by (intros [?|?]; done).
Qed.
End Checkout_props_facts.

Section Checkout_flow_facts.
Import Checkout.
Context `{CoreImports} `{Session.SessionServices} `{Session.SessionStorage}
        `{Session.SetupService}.

Lemma submitDetails_state s d σ :
  (Session.submitDetails s d σ).2 = σ ∨
  ∃ v, (Session.submitDetails s d σ).2 = (Session.updateSessionData s v σ).2.
Proof. apply submitDetails_cases. Qed.

Lemma submitDetails_result s d σ :
  (Session.submitDetails s d σ).1 =
    match Session.Services_submitDetails d s σ with
    | Session.Resolved response => Returned response
    | Session.Rejected e => Thrown e
    end.
Proof.
  unfold Session.submitDetails, mbind, M_bind, Session.await.
  destruct (Session.Services_submitDetails d s σ) as [response|e]; [|done].
  by destruct (toBoolean (prop response "sessionData")).
Qed.

(** X11. submitDetails of the Core never throws and makes at most one call.
    With an onAdditionalDetails handler among the options it calls that, with
    the details, and leaves the session alone.  Without one, and with a
    session, the details go to the session: a response is handed to
    onPaymentCompleted, a rejection to onError, each only if the options have
    it (a rejection is dropped otherwise); the id of the session stays.
    Without handler and session nothing happens. *)
Theorem submitDetails_calls (this : Checkout.t) (details : jsval) (σ : state) :
  ∃ calls σ',
    submitDetails this details σ = (Returned calls, σ') ∧
    (length calls ≤ 1)%nat ∧
    calls =
      (if toBoolean (given σ (options this) "onAdditionalDetails")
       then [onAdditionalDetails_call details]
       else match session this with
            | Some (_, s) =>
                match Session.Services_submitDetails details s σ with
                | Session.Resolved response =>
                    if toBoolean (given σ' (options this) "onPaymentCompleted")
                    then [onPaymentCompleted_call response] else []
                | Session.Rejected e =>
                    if toBoolean (given σ (options this) "onError")
                    then [onError_call e] else []
                end
            | None => []
            end) ∧
    (if toBoolean (given σ (options this) "onAdditionalDetails")
     then σ' = σ
     else match session this with
          | Some (_, s) => (Session.id s σ').1 = (Session.id s σ).1
          | None => σ' = σ
          end).
Proof.
  unfold submitDetails, mbind, M_bind, get, settled, given. cbn.
  destruct (toBoolean (prop (default ∅ (heap σ !! options this)) "onAdditionalDetails")).
  { do 2 eexists. split; [done|]. cbn. split_and!; done || lia. }
  destruct (session this) as [[r s]|]; [|do 2 eexists; split; [done|]; cbn; split_and!; done || lia].
  pose proof (submitDetails_result s details σ) as Hr.
  pose proof (submitDetails_state s details σ) as Hs.
  destruct (Session.submitDetails s details σ) as [[response|e] σ1] eqn:E; cbn in *.
  - destruct (Session.Services_submitDetails details s σ); [|done]. injection Hr as ->.
    do 2 eexists. split; [done|]. split_and!.
    + case_match; cbn; lia.
    + done.
    + destruct Hs as [->|[v ->]]; [done|].
      rewrite updateSessionData_eq. apply id_after_alter.
  - destruct (Session.Services_submitDetails details s σ) as [?|e'] eqn:Es; [done|].
    injection Hr as ->.
    assert (σ1 = σ) as ->.
    { unfold Session.submitDetails, mbind, M_bind, Session.await in E.
      rewrite Es in E. by injection E. }
    do 2 eexists. split; [done|]. split_and!; [case_match; cbn; lia|done|done].
Qed.
End Checkout_flow_facts.

Section Checkout_options_facts.
Import Checkout.
Context `{CoreImports} `{Session.SessionServices} `{Session.SessionStorage}
        `{Session.SetupService}.

(** Stepping through a computation that returns. *)
Lemma returns_ret {A} (a : A) σ (Q : A → state → Prop) : Q a σ → returns (mret a) σ Q.
Proof. intros HQ. by exists a, σ. Qed.

Lemma returns_bind {A B} (m : M A) (f : A → M B) σ (Q : B → state → Prop) :
  returns m σ (λ a σ', returns (f a) σ' Q) → returns (m ≫= f) σ Q.
Proof.
  intros (a & σ' & Hm & b & σ'' & Hf & HQ). exists b, σ''. split; [|done].
  unfold mbind, M_bind. by rewrite Hm.
Qed.

Lemma returns_get l k σ (Q : jsval → state → Prop) :
  Q (given σ l k) σ → returns (get l k) σ Q.
Proof. intros HQ. by eexists _, σ. Qed.

Lemma returns_set l k v σ (Q : unit → state → Prop) :
  Q () (State (alter (<[k := v]>) l (heap σ)) (trace σ)) → returns (set l k v) σ Q.
Proof. intros HQ. by eexists _, _. Qed.

Lemma returns_delete_prop l k σ (Q : unit → state → Prop) :
  Q () (State (alter (delete k) l (heap σ)) (trace σ)) → returns (delete_prop l k) σ Q.
Proof. intros HQ. by eexists _, _. Qed.

Lemma returns_contents l σ (Q : obj → state → Prop) :
  Q (default ∅ (heap σ !! l)) σ → returns (contents l) σ Q.
Proof. intros HQ. by eexists _, σ. Qed.

Lemma returns_alloc (o : obj) σ (Q : loc → state → Prop) :
  (∀ l, heap σ !! l = None → Q l (State (<[l := o]> (heap σ)) (trace σ))) →
  returns (alloc o) σ Q.
Proof. intros HQ. eexists _, _. split; [done|]. apply HQ, fresh_lookup_None. Qed.

Lemma returns_construct (class : state → obj) σ (Q : loc → state → Prop) :
  (∀ l, heap σ !! l = None → Q l (State (<[l := class σ]> (heap σ)) (trace σ))) →
  returns (λ σ, alloc (class σ) σ) σ Q.
Proof. intros HQ. eexists _, _. split; [done|]. apply HQ, fresh_lookup_None. Qed.

Lemma returns_passed (options : option loc) σ (Q : obj → state → Prop) :
  Q (default ∅ (options ≫= λ l, heap σ !! l)) σ →
  returns (match options with Some l => contents l | None => mret ∅ end) σ Q.
Proof. intros HQ. destruct options; by eexists _, σ. Qed.

Lemma given_alter_eq σ tr l k v (o : obj) :
  heap σ !! l = Some o →
  given (State (alter (<[k := v]>) l (heap σ)) tr) l k = v.
Proof.
  intros Hl. unfold given. cbn. rewrite lookup_alter_eq, Hl. cbn.
  apply prop_insert_eq.
Qed.

Lemma setOptions_spec this options σ :
  let previous : obj := default ∅ (heap σ !! Checkout.options this) in
  let passed : obj := default ∅ (options ≫= λ l, heap σ !! l) in
  let merged : obj := passed ∪ previous in
  let merged' : obj :=
    <["locale" := if toBoolean (prop merged "locale")
                  then prop merged "locale" else prop merged "shopperLocale"]>
      (<["loadingContext" := resolveEnvironment (prop merged "environment")]> merged) in
  let source := coalesce (prop merged "paymentMethodsResponse")
                         (prop merged "paymentMethods") in
  returns (setOptions this options) σ (λ this' σ',
    heap σ !! Checkout.options this' = None ∧
    heap σ' !! Checkout.options this' = Some (delete "paymentMethods" merged') ∧
    (∃ σpm, heap σ' !! paymentMethodsResponse this'
              = Some (PaymentMethodsResponse source (Checkout.options this') σpm) ∧
            heap σpm !! Checkout.options this' = Some merged') ∧
    (∃ risk analytics i18n,
        heap σ' !! modules this'
          = Some {[ "risk" := VRef risk; "analytics" := VRef analytics;
                    "i18n" := VRef i18n ]}) ∧
    (∀ l o, heap σ !! l = Some o → heap σ' !! l = Some o) ∧
    trace σ' = trace σ ∧
    self this' = self this ∧ createFromAction this' = createFromAction this ∧
    session this' = session this ∧ components this' = components this).
Proof.
  intros previous passed merged merged' source. unfold setOptions.
  apply returns_bind, returns_contents. fold previous.
  apply returns_bind, returns_passed. fold passed. fold merged.
  apply returns_bind, returns_alloc. intros l0 Hl0.
  apply returns_bind, returns_get.
  apply returns_bind, returns_set. cbn [heap trace].
  unfold given at 1. cbn [heap]. rewrite lookup_insert_eq, alter_insert_eq.
  cbn [default from_option id].
  apply returns_bind, returns_get. apply returns_bind, returns_get.
  apply returns_bind, returns_set. cbn [heap trace].
  unfold given. cbn [heap]. rewrite lookup_insert_eq, alter_insert_eq.
  cbn [default from_option id]. rewrite !prop_insert_ne by done. fold merged'.
  apply returns_bind, returns_construct. intros l1 Hl1. cbn [heap trace] in *.
  apply returns_bind, returns_construct. intros l2 Hl2. cbn [heap trace] in *.
  apply returns_bind, returns_get. apply returns_bind, returns_get.
  apply returns_bind, returns_construct. intros l3 Hl3. cbn [heap trace] in *.
  apply returns_bind, returns_alloc. intros l4 Hl4. cbn [heap trace] in *.
  apply returns_bind, returns_get. apply returns_bind, returns_get.
  repeat match goal with
         | Hl : <[_ := _]> _ !! _ = None |- _ =>
             let Hne := fresh "Hne" in apply lookup_insert_None in Hl as [Hl Hne]
         end.
  unfold given. cbn [heap]. rewrite !lookup_insert_ne by done.
  rewrite lookup_insert_eq. cbn [default from_option id].
  assert (Hsrc : coalesce (prop merged' "paymentMethodsResponse")
                          (prop merged' "paymentMethods") = source).
  { unfold merged'. by rewrite !prop_insert_ne by done. }
  rewrite Hsrc.
  apply returns_bind, returns_construct. intros l5 Hl5. cbn [heap trace] in *.
  repeat match goal with
         | Hl : <[_ := _]> _ !! _ = None |- _ =>
             let Hne := fresh "Hne" in apply lookup_insert_None in Hl as [Hl Hne]
         end.
  apply returns_bind, returns_delete_prop. cbn [heap trace].
  apply returns_ret. cbn [Checkout.options paymentMethodsResponse modules self
                          createFromAction session components heap trace].
  split_and!; try done.
  - rewrite lookup_alter_eq, !lookup_insert_ne by done. by rewrite lookup_insert_eq.
  - eexists. split.
    + rewrite lookup_alter_ne by done. rewrite lookup_insert_eq. reflexivity.
    + cbn [heap]. rewrite !lookup_insert_ne by done. by rewrite lookup_insert_eq.
  - exists l1, l2, l3. rewrite lookup_alter_ne by done.
    rewrite lookup_insert_ne by done. by rewrite lookup_insert_eq.
  - intros l o Hl. rewrite lookup_alter_ne by congruence.
    rewrite !lookup_insert_ne by congruence. done.
Qed.


(** X12. setOptions puts a new options object in place of the old one, made
    of the old options overridden by the ones passed; neither of those two
    objects, nor any other, is changed.  In the new object "loadingContext"
    is what resolveEnvironment gives for its "environment", whatever
    loadingContext was passed; "locale" is its locale, or its shopperLocale
    when that is falsy; and there is no "paymentMethods".  The other fields
    of the instance, modules and PaymentMethodsResponse apart, stay. *)
Theorem setOptions_options (this : Checkout.t) (options : option loc) (σ : state) :
  let previous : obj := default ∅ (heap σ !! Checkout.options this) in
  let passed : obj := default ∅ (options ≫= λ l, heap σ !! l) in
  returns (setOptions this options) σ (λ this' σ',
    ∃ new : obj,
      heap σ !! Checkout.options this' = None ∧
      heap σ' !! Checkout.options this' = Some new ∧
      new !! "loadingContext"
        = Some (resolveEnvironment (prop (passed ∪ previous) "environment")) ∧
      new !! "locale"
        = Some (if toBoolean (prop (passed ∪ previous) "locale")
                then prop (passed ∪ previous) "locale"
                else prop (passed ∪ previous) "shopperLocale") ∧
      new !! "paymentMethods" = None ∧
      (∀ k, k ∉ ["loadingContext"; "locale"; "paymentMethods"] →
            new !! k = match passed !! k with
                       | Some v => Some v
                       | None => previous !! k
                       end) ∧
      (∀ l o, heap σ !! l = Some o → heap σ' !! l = Some o) ∧
      self this' = self this ∧ session this' = session this ∧
      components this' = components this).
Proof.
  intros previous passed.
  destruct (setOptions_spec this options σ)
    as (this' & σ' & Hrun & Hnew & Hopts & _ & _ & Hold & _ & Hself & _ & Hsess & Hcomp).
  exists this', σ'. split; [done|]. eexists. split; [done|]. split; [done|].
  fold previous passed. split_and!; try done.
  - rewrite lookup_delete_ne, lookup_insert_ne by done. by rewrite lookup_insert_eq.
  - rewrite lookup_delete_ne by done. by rewrite lookup_insert_eq.
  - by rewrite lookup_delete_eq.
  - intros k Hk. repeat (apply not_elem_of_cons in Hk as [? Hk]).
    rewrite lookup_delete_ne, !lookup_insert_ne by done.
    destruct (passed !! k) as [v|] eqn:Hp.
    + by apply lookup_union_Some_l.
    + by rewrite lookup_union_r.
Qed.

Lemma coalesce_nullish a b : coalesce a VUndefined = VUndefined → coalesce a b = b.
Proof. by destruct a. Qed.

(** X13. The PaymentMethodsResponse of the instance is built from the
    "paymentMethodsResponse" of the merged options, or from their
    "paymentMethods" when that is null or undefined.  As "paymentMethods" is
    then deleted, payment methods that were passed under that name are gone
    at the next setOptions: if the options passed then bring neither
    property, the PaymentMethodsResponse is built from undefined. *)
Theorem setOptions_forgets_paymentMethods (this : Checkout.t) (first second : loc)
    (σ : state) (a b : obj) :
  heap σ !! first = Some a →
  heap σ !! second = Some b →
  coalesce (prop (a ∪ default ∅ (heap σ !! Checkout.options this)) "paymentMethodsResponse")
           VUndefined = VUndefined →
  b !! "paymentMethods" = None →
  b !! "paymentMethodsResponse" = None →
  returns (setOptions this (Some first)) σ (λ this1 σ1,
    (∃ σpm, heap σ1 !! paymentMethodsResponse this1
              = Some (PaymentMethodsResponse
                        (prop (a ∪ default ∅ (heap σ !! Checkout.options this))
                              "paymentMethods")
                        (Checkout.options this1) σpm)) ∧
    returns (setOptions this1 (Some second)) σ1 (λ this2 σ2,
      ∃ σpm, heap σ2 !! paymentMethodsResponse this2
               = Some (PaymentMethodsResponse VUndefined (Checkout.options this2) σpm))).
Proof.
  intros Ha Hb Hnull Hbpm Hbr.
  destruct (setOptions_spec this (Some first) σ)
    as (this1 & σ1 & Hrun & Hnew & Hopts & (σpm & Hpm & _) & _ & Hold & _).
  cbn [mbind option_bind] in Hopts, Hpm. rewrite Ha in Hopts, Hpm.
  cbn [default from_option id] in Hopts, Hpm.
  exists this1, σ1. split; [done|]. split.
  - exists σpm. by rewrite Hpm, (coalesce_nullish _ _ Hnull).
  - destruct (setOptions_spec this1 (Some second) σ1)
      as (this2 & σ2 & Hrun2 & _ & _ & (σpm2 & Hpm2 & _) & _).
    cbn [mbind option_bind] in Hpm2. rewrite (Hold _ _ Hb), Hopts in Hpm2.
    cbn [default from_option id] in Hpm2.
    exists this2, σ2. split; [done|]. exists σpm2. rewrite Hpm2. do 2 f_equal.
    unfold prop in *.
    rewrite !(lookup_union_r b) by done.
    rewrite lookup_delete_eq, lookup_delete_ne, !lookup_insert_ne by done.
    apply (coalesce_nullish _ VUndefined Hnull).
Qed.

End Checkout_options_facts.

Section Checkout_initialize_facts.
Import Checkout.
Context `{CoreImports} `{Session.SessionServices} `{Session.SessionStorage}
        `{Session.SetupService}.

Lemma given_is_Some σ l k : toBoolean (given σ l k) = true → is_Some (heap σ !! l).
Proof.
  unfold given. by destruct (heap σ !! l); [eauto|].
Qed.

Lemma given_alloc_ne σ i (o' : obj) tr l k :
  heap σ !! i = None → is_Some (heap σ !! l) →
  given (State (<[i := o']> (heap σ)) tr) l k = given σ l k.
Proof.
  intros Hi [o Hl]. unfold given. cbn [heap].
  rewrite lookup_insert_ne; [done|]. intros <-. congruence.
Qed.

Lemma newSession_throws (l : loc) ck lc σ :
  toBoolean (given σ l "id") && toBoolean ck = false →
  newSession (VRef l) ck lc σ =
    (Thrown (if toBoolean (given σ l "id")
             then Session.msg_no_session_clientKey else Session.msg_no_session_id), σ).
Proof.
  intros Hbad. unfold newSession, mbind, M_bind. rewrite constructor_eq.
  destruct (toBoolean (given σ l "id")); cbn in *; [|done].
  by rewrite Hbad.
Qed.

Lemma newSession_returns (l : loc) ck lc σ (Q : loc * Session.t → state → Prop) :
  toBoolean (given σ l "id") = true →
  toBoolean ck = true →
  (∀ instance s σ',
     heap σ' !! instance = None →
     heap σ' = heap σ →
     Session.clientKey s = ck →
     Session.loadingContext s = lc →
     given σ (Session.session s) "id" = given σ l "id" →
     Q (instance, s)
       (State (<[instance := {[ "session" := VRef (Session.session s);
                                "clientKey" := Session.clientKey s;
                                "loadingContext" := Session.loadingContext s ]}]>
                 (heap σ'))
              (trace σ'))) →
  returns (newSession (VRef l) ck lc) σ Q.
Proof.
  intros Hid Hck HQ. unfold newSession. apply returns_bind.
  assert (Hc : ∃ s σ', Session.constructor l ck lc σ = (Returned s, σ') ∧ heap σ' = heap σ ∧
                       Session.clientKey s = ck ∧ Session.loadingContext s = lc ∧
                       given σ (Session.session s) "id" = given σ l "id").
  { rewrite constructor_eq, Hid, Hck. cbn [negb].
    destruct (toBoolean (given σ l "data")); cbn [negb].
    - by do 2 eexists.
    - destruct (getStoredSession_is_Some (Session.Make l VUndefined VUndefined) σ Hid)
        as (l' & -> & Hl'). cbn. by do 2 eexists. }
  destruct Hc as (s & σ' & Hc & Hheap & Hk & Hlc & Hsid).
  exists s, σ'. split; [done|].
  apply returns_bind, returns_alloc. intros instance Hi. apply returns_ret. cbn [heap trace].
  by apply HQ.
Qed.

(** X14. initialize with a session option whose session object has no
    (truthy) id, or with no clientKey among the options, throws what
    new Session throws: the error does not go to onError, and nothing was
    changed or stored. *)
Theorem initialize_rejects_session (this : Checkout.t) (σ : state) (l : loc) :
  given σ (options this) "session" = VRef l →
  toBoolean (given σ l "id")
    && toBoolean (given σ (options this) "clientKey") = false →
  initialize this σ =
    (Thrown (if toBoolean (given σ l "id")
             then Session.msg_no_session_clientKey else Session.msg_no_session_id), σ).
Proof.
  intros Hsession Hbad. unfold initialize, mbind at 1, M_bind at 1, get at 1.
  fold (given σ (options this) "session"). rewrite Hsession. cbn [toBoolean].
  unfold mbind at 1, M_bind at 1, get at 1. unfold mbind at 1, M_bind at 1, get at 1.
  unfold mbind at 1, M_bind at 1.
  fold (given σ (options this) "clientKey").
  by rewrite (newSession_throws _ _ _ _ Hbad).
Qed.

Lemma returns_settled_thrown {A} (m : M A) σ e σ1 (Q : result A → state → Prop) :
  m σ = (Thrown e, σ1) → Q (Thrown e) σ1 → returns (settled m) σ Q.
Proof. intros Hm HQ. exists (Thrown e), σ1. unfold settled. by rewrite Hm. Qed.

Lemma returns_settled_returned {A} (m : M A) σ (Q : result A → state → Prop) :
  returns m σ (λ a σ', Q (Returned a) σ') → returns (settled m) σ Q.
Proof.
  intros (a & σ' & Hm & HQ). exists (Returned a), σ'. unfold settled. by rewrite Hm.
Qed.

(** X15. When the setup of the session is rejected, initialize still returns:
    the rejection goes to onError if the options have one, and is dropped
    otherwise.  The session stays installed; options, modules and
    PaymentMethodsResponse are the ones there were, and no object that was
    there is changed. *)
Theorem initialize_setup_rejected (this : Checkout.t) (σ : state) (l : loc) (e : string) :
  given σ (options this) "session" = VRef l →
  toBoolean (given σ l "id") = true →
  toBoolean (given σ (options this) "clientKey") = true →
  (∀ s σ', Session.Services_setupSession s σ' = Session.Rejected e) →
  returns (initialize this) σ (λ r σ',
    r.2 = (if toBoolean (given σ (options this) "onError")
           then [onError_call e] else []) ∧
    (∃ instance s, session r.1 = Some (instance, s) ∧ heap σ !! instance = None ∧
                   (Session.id s σ').1 = Returned (given σ l "id")) ∧
    options r.1 = options this ∧ modules r.1 = modules this ∧
    paymentMethodsResponse r.1 = paymentMethodsResponse this ∧
    components r.1 = components this ∧
    (∀ l' o, heap σ !! l' = Some o → heap σ' !! l' = Some o)).
Proof.
  intros Hsession Hid Hck Hrej. unfold initialize.
  apply returns_bind, returns_get. rewrite Hsession. cbn [toBoolean].
  apply returns_bind, returns_get. apply returns_bind, returns_get.
  apply returns_bind, newSession_returns; [done..|].
  intros instance s σ1 Hi Hheap Hcks Hlcs Hsid. cbn [snd].
  destruct σ1 as [h1 tr1]. cbn [heap trace] in *. subst h1.
  apply returns_bind. eapply returns_settled_thrown.
  { unfold mbind, M_bind, Session.setupSession, Session.await. by rewrite Hrej. }
  apply returns_bind, returns_get. apply returns_ret. cbn [fst snd session options modules
    paymentMethodsResponse components].
  split_and!; try done.
  - rewrite given_alloc_ne; [done..|]. by eapply given_is_Some.
  - exists instance, s. split; [done|]. split; [done|].
    unfold Session.id, get. cbn [fst]. f_equal. rewrite <-Hsid.
    apply given_alloc_ne; [done|]. eapply given_is_Some. by rewrite Hsid.
  - intros l' o Hl'. cbn [heap]. rewrite lookup_insert_ne; [done|]. intros <-. congruence.
Qed.

Lemma returns_mono {A} (m : M A) σ (Q Q' : A → state → Prop) :
  returns m σ Q → (∀ a σ', Q a σ' → Q' a σ') → returns m σ Q'.
Proof. intros (a & σ' & Hm & HQ) Himp. exists a, σ'. auto. Qed.

Lemma returns_getv_ref l k σ (Q : jsval → state → Prop) :
  Q (given σ l k) σ → returns (getv (VRef l) k) σ Q.
Proof. apply returns_get. Qed.

(** The value [order.remainingAmount] has for a truthy [order]. *)
Lemma returns_getv_truthy v k σ (Q : jsval → state → Prop) :
  toBoolean v = true →
  Q (match v with VRef lo => given σ lo k | _ => VUndefined end) σ →
  returns (getv v k) σ Q.
Proof. intros Hv HQ. destruct v; try done; by eexists _, σ. Qed.

(** X16. When the setup of the session succeeds, initialize calls no handler
    and puts new options in place: the properties of the setup response
    override the options there were, and "amount" is the remainingAmount of
    the order when the options have an order, and the amount of the response
    otherwise. *)
Theorem initialize_amount (this : Checkout.t) (σ : state) (l : loc) (response : obj) :
  given σ (options this) "session" = VRef l →
  toBoolean (given σ l "id") = true →
  toBoolean (given σ (options this) "clientKey") = true →
  (∀ s σ', Session.Services_setupSession s σ' = Session.Resolved response) →
  match given σ (options this) "order" with
  | VRef lo => is_Some (heap σ !! lo)
  | _ => True
  end →
  returns (initialize this) σ (λ r σ',
    r.2 = [] ∧
    is_Some (session r.1) ∧
    ∃ new : obj,
      heap σ' !! options r.1 = Some new ∧
      new !! "amount"
        = Some (if toBoolean (given σ (options this) "order")
                then match given σ (options this) "order" with
                     | VRef lo => given σ lo "remainingAmount"
                     | _ => VUndefined
                     end
                else prop response "amount") ∧
      (∀ k, k ∉ ["amount"; "loadingContext"; "locale"; "paymentMethods"] →
            new !! k = match response !! k with
                       | Some v => Some v
                       | None => default ∅ (heap σ !! options this) !! k
                       end)).
Proof.
  intros Hsession Hid Hck Hres Horder. unfold initialize.
  pose proof (given_is_Some _ _ _ Hck) as [o Ho].
  apply returns_bind, returns_get. rewrite Hsession. cbn [toBoolean].
  apply returns_bind, returns_get. apply returns_bind, returns_get.
  apply returns_bind, newSession_returns; [done..|].
  intros instance s σ1 Hi Hheap Hcks Hlcs Hsid. cbn [snd].
  destruct σ1 as [h1 tr1]. cbn [heap trace] in *. subst h1.
  set (σ2 := State _ tr1).
  assert (Hgiven : ∀ l' k, is_Some (heap σ !! l') →
                           given σ2 l' k = given σ l' k).
  { intros l' k Hl'. by apply given_alloc_ne. }
  apply returns_bind, returns_settled_returned.
  apply returns_bind. exists response, σ2. split.
  { unfold Session.setupSession, Session.await. by rewrite Hres. }
  cbn [options]. apply returns_bind, returns_get.
  rewrite (Hgiven (options this) "order") by eauto.
  set (order := given σ (options this) "order") in *.
  set (amount := if toBoolean order
                 then match order with
                      | VRef lo => given σ lo "remainingAmount"
                      | _ => VUndefined
                      end
                 else prop response "amount").
  assert (Hamount : returns (if toBoolean order then getv order "remainingAmount"
                             else mret (prop response "amount")) σ2
                            (λ a σ', a = amount ∧ σ' = σ2)).
  { unfold amount. destruct (toBoolean order) eqn:Hord.
    - apply returns_getv_truthy; [done|]. split; [|done].
      destruct order; try done. by apply Hgiven.
    - by apply returns_ret. }
  apply returns_bind. eapply returns_mono; [exact Hamount|].
  intros ? ? [-> ->]. clear Hamount.
  apply returns_bind, returns_alloc. intros u Hu.
  eapply returns_mono; [apply setOptions_spec|].
  intros this' σ' (Hnew & Hopts & _ & _ & _ & _ & _ & _ & Hsess & _).
  apply returns_ret. cbn [fst snd]. split; [done|]. split; [rewrite Hsess; by eexists|].
  cbn [options heap mbind option_bind] in Hopts.
  rewrite lookup_insert_eq in Hopts. cbn [default from_option id] in Hopts.
  assert (Hprev : <[u := <["amount" := amount]> response]> (heap σ2) !! options this = Some o).
  { unfold σ2 in Hu |- *. cbn [heap] in Hu |- *.
    apply lookup_insert_None in Hu as [Hu Hne].
    rewrite !lookup_insert_ne; [done|..]; intros E; rewrite E in *; congruence. }
  rewrite Hprev in Hopts. cbn [default from_option id] in Hopts.
  eexists. split; [exact Hopts|]. rewrite Ho. cbn [default from_option id]. split.
  - rewrite lookup_delete_ne, !lookup_insert_ne by done.
    apply lookup_union_Some_l. by rewrite lookup_insert_eq.
  - intros k Hk. repeat (apply not_elem_of_cons in Hk as [? Hk]).
    rewrite lookup_delete_ne, !lookup_insert_ne by done.
    destruct (response !! k) as [v|] eqn:Hr.
    + apply lookup_union_Some_l. by rewrite lookup_insert_ne.
    + rewrite lookup_union_r; [done|]. by rewrite lookup_insert_ne.
Qed.

End Checkout_initialize_facts.

Section Checkout_update_facts.
Import Checkout.
Context `{CoreImports} `{Session.SessionServices} `{Session.SessionStorage}
        `{Session.SetupService}.

Lemma getPropsForComponent_alloc this options σ (Q : loc → state → Prop) :
  (∀ props (p : obj), heap σ !! props = None →
                      Q props (State (<[props := p]> (heap σ)) (trace σ))) →
  returns (getPropsForComponent this options) σ Q.
Proof.
  intros HQ. unfold getPropsForComponent.
  apply returns_bind, returns_get. apply returns_bind, returns_get.
  apply returns_bind, returns_passed. apply returns_bind, returns_get.
  apply returns_alloc. intros props Hp. by apply HQ.
Qed.

Lemma forEach_update this cs σ :
  returns (forEach (λ c, props ← getPropsForComponent this (Some (options this));
                         mret (component_update_call c props)) cs) σ
    (λ calls σ',
       ∃ ps, calls = zip_with component_update_call cs ps ∧
             length ps = length cs ∧
             NoDup ps ∧
             Forall (λ p, heap σ !! p = None ∧ is_Some (heap σ' !! p)) ps ∧
             (∀ l o, heap σ !! l = Some o → heap σ' !! l = Some o) ∧
             trace σ' = trace σ).
Proof.
  revert σ. induction cs as [|c cs IH]; intros σ; cbn [forEach].
  - apply returns_ret. exists []. split_and!; try done. constructor.
  - apply returns_bind, returns_bind, getPropsForComponent_alloc. intros p1 o1 Hp1.
    apply returns_ret, returns_bind.
    eapply returns_mono; [apply IH|]. cbn [heap trace].
    intros calls σ' (ps & -> & Hlen & Hnd & Hall & Hold & Htr).
    apply returns_ret. exists (p1 :: ps). split_and!; try done.
    + cbn. by rewrite Hlen.
    + apply NoDup_cons. split; [|done]. intros Hin.
      rewrite Forall_forall in Hall. apply Hall in Hin as [Hin _].
      by rewrite lookup_insert_eq in Hin.
    + apply Forall_cons. split.
      * split; [done|]. eexists. apply Hold. by rewrite lookup_insert_eq.
      * eapply Forall_impl; [exact Hall|]. intros p [Hp Hp'].
        apply lookup_insert_None in Hp as [Hp _]. done.
    + intros l o Hl. apply Hold. rewrite lookup_insert_ne; [done|].
      intros <-. congruence.
Qed.

Lemma update_spec this options σ :
  toBoolean (prop (default ∅ (options ≫= λ l, heap σ !! l)
                   ∪ default ∅ (heap σ !! Checkout.options this)) "session") = false →
  returns (update this options) σ (λ r σ',
    ∃ ps, r.2 = zip_with component_update_call (components this) ps ∧
          length ps = length (components this) ∧
          NoDup ps ∧
          Forall (λ p, heap σ !! p = None ∧ is_Some (heap σ' !! p)) ps ∧
          components r.1 = components this ∧
          (∀ l o, heap σ !! l = Some o → heap σ' !! l = Some o)).
Proof.
  intros Hsession. unfold update.
  set (rest := λ options0 : loc, _ ≫= _).
  assert (Hrest : ∀ l0 σ0,
    (∀ l o, heap σ !! l = Some o → heap σ0 !! l = Some o) →
    (∀ p, heap σ0 !! p = None → heap σ !! p = None) →
    toBoolean (prop (default ∅ (heap σ0 !! l0)
                     ∪ default ∅ (heap σ0 !! Checkout.options this)) "session") = false →
    returns (rest l0) σ0 (λ r σ',
      ∃ ps, r.2 = zip_with component_update_call (components this) ps ∧
            length ps = length (components this) ∧
            NoDup ps ∧
            Forall (λ p, heap σ !! p = None ∧ is_Some (heap σ' !! p)) ps ∧
            components r.1 = components this ∧
            (∀ l o, heap σ !! l = Some o → heap σ' !! l = Some o))).
  { intros l0 σ0 Hold0 Hnew0 Hs0. unfold rest.
    apply returns_bind. eapply returns_mono; [apply (setOptions_spec this (Some l0) σ0)|].
    cbn [mbind option_bind].
    intros this1 σ1 (Hnew & Hopts & _ & _ & Hold & _ & _ & _ & _ & Hcomp).
    apply returns_bind. unfold initialize.
    apply returns_bind, returns_get.
    assert (Hno : toBoolean (given σ1 (Checkout.options this1) "session") = false).
    { unfold given, prop. rewrite Hopts. cbn [default from_option id].
      rewrite lookup_delete_ne, !lookup_insert_ne by done. exact Hs0. }
    rewrite Hno. apply returns_ret. cbn beta iota.
    apply returns_bind. eapply returns_mono; [apply forEach_update|].
    intros calls σ' (ps & -> & Hlen & Hnd & Hall & Hold' & _).
    apply returns_ret. cbn [fst snd app]. exists ps. rewrite Hcomp in *. split_and!; try done.
    - eapply Forall_impl; [exact Hall|]. intros p [Hp Hp']. split; [|done].
      apply Hnew0. destruct (heap σ0 !! p) as [o|] eqn:E; [|done].
      apply Hold in E. congruence.
    - intros l o Hl. by apply Hold', Hold, Hold0. }
  destruct options as [l0|]; cbn [mbind option_bind] in Hsession.
  - cbn beta iota. apply returns_bind, returns_ret. by apply Hrest.
  - apply returns_bind, returns_alloc. intros l0 Hl0. apply Hrest; cbn [heap].
    + intros l o Hl. rewrite lookup_insert_ne; [done|]. intros <-. congruence.
    + intros p Hp. by apply lookup_insert_None in Hp as [Hp _].
    + rewrite lookup_insert_eq. cbn [default from_option id].
      destruct (decide (l0 = Checkout.options this)) as [E|Hne].
      * rewrite <-E in *. rewrite lookup_insert_eq. by rewrite Hl0 in Hsession.
      * by rewrite lookup_insert_ne.
Qed.

Lemma updated_zip cs ps :
  length ps = length cs → updated (zip_with component_update_call cs ps) = cs.
Proof.
  revert ps. induction cs as [|c cs IH]; intros [|p ps] Hlen; try done.
  cbn. f_equal. apply IH. by injection Hlen.
Qed.

Lemma propsOf_zip cs ps :
  length ps = length cs → propsOf (zip_with component_update_call cs ps) = ps.
Proof.
  revert ps. induction cs as [|c cs IH]; intros [|p ps] Hlen; try done.
  cbn. f_equal. apply IH. by injection Hlen.
Qed.

(** X17. update on a Core without session option (neither in the options it
    has nor in the ones passed) returns, having called update on every
    registered component, once each and in the order of registration, and
    nothing else; every component is handed a props object of its own, made
    for the call.  The list of components stays, and no object that was there
    is changed. *)
Theorem update_updates_each_component (this : Checkout.t) (options : option loc)
    (σ : state) :
  toBoolean (prop (default ∅ (options ≫= λ l, heap σ !! l)
                   ∪ default ∅ (heap σ !! Checkout.options this)) "session") = false →
  returns (update this options) σ (λ r σ',
    updated r.2 = components this ∧
    length r.2 = length (components this) ∧
    NoDup (propsOf r.2) ∧
    Forall (λ p, heap σ !! p = None ∧ is_Some (heap σ' !! p)) (propsOf r.2) ∧
    components r.1 = components this ∧
    (∀ l o, heap σ !! l = Some o → heap σ' !! l = Some o)).
Proof.
  intros Hsession. eapply returns_mono; [by apply update_spec|].
  intros r σ' (ps & -> & Hlen & Hnd & Hall & Hcomp & Hold).
  rewrite updated_zip, propsOf_zip by done. split_and!; try done.
  rewrite length_zip_with. lia.
Qed.

(** X18. A component that was removed is not updated any more: update after
    remove(component) reaches exactly the registered components whose _id is
    not that of the component removed. *)
Theorem remove_then_update (this : Checkout.t) (component : loc) (options : option loc)
    (σ : state) :
  toBoolean (prop (default ∅ (options ≫= λ l, heap σ !! l)
                   ∪ default ∅ (heap σ !! Checkout.options this)) "session") = false →
  returns (this1 ← remove this component; update this1 options) σ (λ r σ',
    ∀ c, c ∈ updated r.2 ↔
         c ∈ components this ∧ Core._id (heap σ) c ≠ Core._id (heap σ) component).
Proof.
  intros Hsession. apply returns_bind. unfold remove.
  apply returns_bind. eexists _, _. split; [apply remove_eq|].
  apply returns_ret. cbn [heap Core.components].
  eapply returns_mono; [by apply update_spec|]. cbn [components].
  intros r σ' (ps & -> & Hlen & _). intros c.
  rewrite updated_zip by done. rewrite list_elem_of_filter.
  unfold strict_eq. rewrite bool_decide_eq_false. tauto.
Qed.

End Checkout_update_facts.

(** * The further properties on the sample page *)

Section Session_construction_sample.
Import Sample Session.
Existing Instance storage.
Existing Instance services.

Lemma constructor_rejects_witness :
  constructor 1%positive (VStr "test_KEY") VUndefined (stateWith noIdSession)
    = (Thrown msg_no_session_id, stateWith noIdSession).
Proof.
  exact (constructor_rejects 1%positive (VStr "test_KEY") VUndefined
           (stateWith noIdSession) eq_refl).
Defined.

Lemma constructor_keeps_id_witness :
  ∃ this σ',
    constructor 1%positive (VStr "test_KEY") (VStr "https://checkout-test.adyen.com/") reloaded
      = (Returned this, σ') ∧
    heap σ' = heap reloaded ∧
    (id this σ').1 = Returned (VStr "CS451F2AB1") ∧
    Session.clientKey this = VStr "test_KEY" ∧
    Session.loadingContext this = VStr "https://checkout-test.adyen.com/".
Proof.
  exact (constructor_keeps_id 1%positive (VStr "test_KEY")
           (VStr "https://checkout-test.adyen.com/") reloaded eq_refl eq_refl).
Defined.

Lemma constructor_storage_witness :
  ∃ this σ',
    constructor 1%positive (VStr "test_KEY") VUndefined reloaded = (Returned this, σ') ∧
    emitted reloaded σ' = [] ∧
    Session.session this = 5%positive.
Proof.
  exact (constructor_storage 1%positive (VStr "test_KEY") VUndefined reloaded
           eq_refl eq_refl).
Defined.

Lemma makePayment_outcome_witness :
  (makePayment theSession VUndefined (stateWith checkoutSession)).1
    = Returned {[ "resultCode" := VStr "Authorised"; "sessionData" := VStr "Ab02b4c0-2" ]} ∧
  (data theSession (makePayment theSession VUndefined (stateWith checkoutSession)).2).1
    = Returned (VStr "Ab02b4c0-2") ∧
  emitted (stateWith checkoutSession)
          (makePayment theSession VUndefined (stateWith checkoutSession)).2
    = [storeSession_call (<["data" := VStr "Ab02b4c0-2"]> checkoutSession)].
Proof.
  exact (makePayment_outcome theSession VUndefined (stateWith checkoutSession)
           checkoutSession eq_refl).
Defined.

Lemma constructor_shares_session_witness :
  ∃ this σ1,
    constructor 1%positive (VStr "test_KEY") VUndefined (stateWith checkoutSession)
      = (Returned this, σ1) ∧
    heap (updateSessionData this (VStr "Ab02b4c0-2") σ1).2 !! 1%positive
      = Some (<["data" := VStr "Ab02b4c0-2"]> checkoutSession).
Proof.
  exact (constructor_shares_session 1%positive (VStr "test_KEY") VUndefined
           (VStr "Ab02b4c0-2") (stateWith checkoutSession) checkoutSession
           eq_refl eq_refl eq_refl eq_refl).
Defined.
End Session_construction_sample.

Section Core_remove_sample.
Import Sample Core.

Lemma remove_unregistered_witness :
  ∃ σ', remove checkout 9%positive mounted = (Returned checkout, σ') ∧
        emitted mounted σ' = [unmount_call 9%positive].
Proof.
  apply (remove_unregistered checkout 9%positive mounted).
  repeat constructor; vm_compute; discriminate.
Defined.

Lemma remove_twice_witness :
  components (Make [3%positive]) = components (Make [3%positive]) ∧
  emitted mounted (State (heap mounted) [unmount_call 2%positive; unmount_call 2%positive])
    = [unmount_call 2%positive; unmount_call 2%positive].
Proof.
  exact (remove_twice checkout (Make [3%positive]) (Make [3%positive]) 2%positive
           mounted (State (heap mounted) [unmount_call 2%positive])
           (State (heap mounted) [unmount_call 2%positive; unmount_call 2%positive])
           eq_refl eq_refl).
Defined.

Lemma remove_commutes_witness :
  components (Make []) = components (Make []) ∧
  heap (State (heap mounted) [unmount_call 2%positive; unmount_call 3%positive])
    = heap (State (heap mounted) [unmount_call 3%positive; unmount_call 2%positive]).
Proof.
  exact (remove_commutes checkout (Make [3%positive]) (Make []) (Make [2%positive; 4%positive])
           (Make []) 2%positive 3%positive
           mounted (State (heap mounted) [unmount_call 2%positive])
           (State (heap mounted) [unmount_call 2%positive; unmount_call 3%positive])
           (State (heap mounted) [unmount_call 3%positive])
           (State (heap mounted) [unmount_call 3%positive; unmount_call 2%positive])
           eq_refl eq_refl eq_refl eq_refl).
Defined.
End Core_remove_sample.

Section Checkout_sample.
Import Sample Checkout.
Existing Instance coreImports.
Existing Instance storage.
Existing Instance services.
Existing Instance setupResolves.

Lemma setOptions_forgets_paymentMethods_witness :
  returns (setOptions theCore (Some 30%positive))
    (passingTwo {[ "paymentMethods" := VRef 14%positive ]} {[ "locale" := VStr "en-US" ]})
    (λ this1 σ1,
       (∃ σpm, heap σ1 !! paymentMethodsResponse this1
                 = Some (PaymentMethodsResponse
                           (prop ({[ "paymentMethods" := VRef 14%positive ]}
                                  ∪ default ∅
                                      (heap (passingTwo
                                               {[ "paymentMethods" := VRef 14%positive ]}
                                               {[ "locale" := VStr "en-US" ]})
                                       !! Checkout.options theCore))
                                 "paymentMethods")
                           (Checkout.options this1) σpm)) ∧
       returns (setOptions this1 (Some 31%positive)) σ1 (λ this2 σ2,
         ∃ σpm, heap σ2 !! paymentMethodsResponse this2
                  = Some (PaymentMethodsResponse VUndefined (Checkout.options this2) σpm))).
Proof.
  exact (setOptions_forgets_paymentMethods theCore 30%positive 31%positive
           (passingTwo {[ "paymentMethods" := VRef 14%positive ]}
                       {[ "locale" := VStr "en-US" ]})
           {[ "paymentMethods" := VRef 14%positive ]} {[ "locale" := VStr "en-US" ]}
           eq_refl eq_refl eq_refl eq_refl eq_refl).
Defined.

Lemma update_updates_each_component_witness :
  returns (update theCore (Some 30%positive)) (passing {[ "locale" := VStr "en-US" ]})
    (λ r σ',
       updated r.2 = components theCore ∧
       length r.2 = length (components theCore) ∧
       NoDup (propsOf r.2) ∧
       Forall (λ p, heap (passing {[ "locale" := VStr "en-US" ]}) !! p = None
                    ∧ is_Some (heap σ' !! p)) (propsOf r.2) ∧
       components r.1 = components theCore ∧
       (∀ l o, heap (passing {[ "locale" := VStr "en-US" ]}) !! l = Some o →
               heap σ' !! l = Some o)).
Proof.
  exact (update_updates_each_component theCore (Some 30%positive)
           (passing {[ "locale" := VStr "en-US" ]}) eq_refl).
Defined.

Lemma remove_then_update_witness :
  returns (this1 ← remove theCore 2%positive; update this1 None) plain
    (λ r σ',
       ∀ c, c ∈ updated r.2 ↔
            c ∈ components theCore
            ∧ Core._id (heap plain) c ≠ Core._id (heap plain) 2%positive).
Proof. exact (remove_then_update theCore 2%positive None plain eq_refl). Defined.

Lemma initialize_rejects_session_witness :
  initialize theCore (withSession noIdSession ∅)
    = (Thrown Session.msg_no_session_id, withSession noIdSession ∅).
Proof.
  exact (initialize_rejects_session theCore
           (withSession noIdSession ∅) 1%positive eq_refl eq_refl).
Defined.

Lemma initialize_amount_witness :
  returns (initialize theCore)
    (withOrder (withSession checkoutSession {[ "order" := VRef 40%positive ]}))
    (λ r σ',
       r.2 = [] ∧
       is_Some (session r.1) ∧
       ∃ new : obj,
         heap σ' !! options r.1 = Some new ∧
         new !! "amount" = Some (VNum 250) ∧
         (∀ k, k ∉ ["amount"; "loadingContext"; "locale"; "paymentMethods"] →
               new !! k
               = match setupResponse !! k with
                 | Some v => Some v
                 | None =>
                     default ∅
                       (heap (withOrder (withSession checkoutSession
                                           {[ "order" := VRef 40%positive ]}))
                        !! options theCore) !! k
                 end)).
Proof.
  exact (initialize_amount theCore
           (withOrder (withSession checkoutSession {[ "order" := VRef 40%positive ]}))
           1%positive setupResponse eq_refl eq_refl eq_refl (λ _ _, eq_refl)
           (ex_intro _ anOrder eq_refl)).
Defined.
End Checkout_sample.

Section Checkout_rejected_sample.
Import Sample Checkout.
Existing Instance coreImports.
Existing Instance storage.
Existing Instance services.
Existing Instance setupRejects.

Lemma initialize_setup_rejected_witness :
  returns (initialize theCore) (withSession checkoutSession ∅)
    (λ r σ',
       r.2 = [onError_call "NETWORK_ERROR"] ∧
       (∃ instance s, session r.1 = Some (instance, s) ∧
                      heap (withSession checkoutSession ∅) !! instance = None ∧
                      (Session.id s σ').1 = Returned (VStr "CS451F2AB1")) ∧
       options r.1 = options theCore ∧ modules r.1 = modules theCore ∧
       paymentMethodsResponse r.1 = paymentMethodsResponse theCore ∧
       components r.1 = components theCore ∧
       (∀ l' o, heap (withSession checkoutSession ∅) !! l' = Some o →
                heap σ' !! l' = Some o)).
Proof.
  exact (initialize_setup_rejected theCore
           (withSession checkoutSession ∅) 1%positive "NETWORK_ERROR"
           eq_refl eq_refl eq_refl (λ _ _, eq_refl)).
Defined.
End Checkout_rejected_sample.
